(** * Neogenesis audio visualizer: fractal generator and animation tick

    A shallow embedding of [createNeogenesisFractal]
    (src/services/fractalGenerator.ts), of the [animate] loop body, of
    [createParticleGeometry] and of the two regeneration effects of
    [useNeogenesis] (src/hooks/useNeogenesis.ts), and of
    [AudioProcessor.updateFrequencyData] (src/services/AudioProcessor.ts).

    Numbers.  A JavaScript number is modelled by [num]: an exact real, or
    [NaN].  Rounding (binary64 arithmetic, binary32 storage in a
    [Float32Array]) and overflow to an infinity are idealised away; what is
    kept is every place where the code produces [NaN] in exact arithmetic:
    [0 / 0], and arithmetic on [undefined] read from beyond the end of an
    array.  Where binary64 overflows (a sum of squares of coordinates of
    magnitude 2^512 and more is an infinity, and [0 * Infinity] is [NaN])
    the model does not follow the code: what is proved of the arithmetic
    is proved in exact arithmetic.

    Objects.  [geometry.attributes] is a JavaScript object used as a map from
    attribute names to buffers: a [gmap string BufferAttribute].  Typed
    arrays are lists; a write beyond the end of a typed array is ignored by
    JavaScript and by the list update used here alike.  A [TypeError] or
    [RangeError] thrown by the code is the result [None]. *)

From Stdlib Require Import Reals Lra ZArith.
From stdpp Require Import gmap strings list fin_maps.

(** ** JavaScript numbers *)

Inductive num : Type :=
| NaN : num
| Fin (r : R) : num.

Module Num.

#[local] Open Scope R_scope.

Definition lift2 (f : R -> R -> R) (p q : num) : num :=
  match p, q with
  | Fin u, Fin v => Fin (f u v)
  | _, _ => NaN
  end.

Definition add : num -> num -> num := lift2 Rplus.
Definition sub : num -> num -> num := lift2 Rminus.
Definition mul : num -> num -> num := lift2 Rmult.

(** [p / q].  The quotient [0 / 0] is [NaN].  A non-zero dividend over
    zero is an infinity in JavaScript; no division of the modelled code
    can meet that case on finite operands (its divisors are [255],
    [length * 255] under a sum that is [0] when the length is, and
    [length() || 1]), and the model maps it to [NaN] too. *)
Definition div (p q : num) : num :=
  match p, q with
  | Fin u, Fin v => if Req_dec_T v 0 then NaN else Fin (u / v)
  | _, _ => NaN
  end.

(** [Math.sqrt]. *)
Definition sqrt (p : num) : num :=
  match p with
  | Fin u => if Rlt_dec u 0 then NaN else Fin (R_sqrt.sqrt u)
  | NaN => NaN
  end.

(** [p || q] on numbers: [p] unless it is falsy ([0] or [NaN]). *)
Definition or_else (p q : num) : num :=
  match p with
  | Fin u => if Req_dec_T u 0 then q else p
  | NaN => q
  end.

Definition of_Z (z : Z) : num := Fin (IZR z).
Definition of_nat (n : nat) : num := Fin (INR n).

Definition finite (p : num) : Prop :=
  match p with Fin _ => True | NaN => False end.

(** [THREE.MathUtils.lerp(x, y, t)] is [(1 - t) * x + t * y]. *)
Definition lerp (p q t : num) : num :=
  add (mul (sub (Fin 1) t) p) (mul t q).

End Num.

(** A read [arr[i]] used in arithmetic: [undefined] becomes [NaN]. *)
Definition rd (arr : list num) (i : nat) : num := default NaN (arr !! i).

(** ** THREE.Vector3 and THREE.Triangle *)

Record Vector3 : Type := mkVector3 { vx : num; vy : num; vz : num }.

Module Vec.

Definition addVectors (p q : Vector3) : Vector3 :=
  mkVector3 (Num.add (vx p) (vx q)) (Num.add (vy p) (vy q))
            (Num.add (vz p) (vz q)).

Definition multiplyScalar (p : Vector3) (s : num) : Vector3 :=
  mkVector3 (Num.mul (vx p) s) (Num.mul (vy p) s) (Num.mul (vz p) s).

Definition divideScalar (p : Vector3) (s : num) : Vector3 :=
  multiplyScalar p (Num.div (Fin 1) s).

(** [Math.sqrt(x * x + y * y + z * z)], in exact arithmetic: the sum does
    not overflow. *)
Definition length (p : Vector3) : num :=
  Num.sqrt (Num.add (Num.add (Num.mul (vx p) (vx p))
                              (Num.mul (vy p) (vy p)))
                     (Num.mul (vz p) (vz p))).

(** [this.divideScalar(this.length() || 1)]. *)
Definition normalize (p : Vector3) : Vector3 :=
  divideScalar p (Num.or_else (length p) (Fin 1)).

(** [this.x += (v.x - this.x) * alpha], and so for [y] and [z]. *)
Definition lerp (p q : Vector3) (alpha : num) : Vector3 :=
  mkVector3 (Num.add (vx p) (Num.mul (Num.sub (vx q) (vx p)) alpha))
            (Num.add (vy p) (Num.mul (Num.sub (vy q) (vy p)) alpha))
            (Num.add (vz p) (Num.mul (Num.sub (vz q) (vz p)) alpha)).

Definition finite (p : Vector3) : Prop :=
  Num.finite (vx p) /\ Num.finite (vy p) /\ Num.finite (vz p).

End Vec.

Record Triangle : Type := mkTriangle { ta : Vector3; tb : Vector3; tc : Vector3 }.

(** ** The Subdivider: the loop of createNeogenesisFractal, lines 42-60 *)

(** The projected midpoint of an edge: [addVectors(p, q).multiplyScalar(0.5)],
    then [normalize().multiplyScalar(radius)]. *)
Definition projectedMidpoint (radius : num) (p q : Vector3) : Vector3 :=
  Vec.multiplyScalar
    (Vec.normalize (Vec.multiplyScalar (Vec.addVectors p q) (Fin (1 / 2)%R)))
    radius.

Definition m12 (tri : Triangle) : Vector3 :=
  projectedMidpoint (Vec.length (ta tri)) (ta tri) (tb tri).
Definition m23 (tri : Triangle) : Vector3 :=
  projectedMidpoint (Vec.length (ta tri)) (tb tri) (tc tri).
Definition m31 (tri : Triangle) : Vector3 :=
  projectedMidpoint (Vec.length (ta tri)) (tc tri) (ta tri).

(** The body of the [forEach] callback: the three pushes for one triangle. *)
Definition subdivideTriangle (tri : Triangle) : list Triangle :=
  [ mkTriangle (ta tri) (m12 tri) (m31 tri);
    mkTriangle (tb tri) (m23 tri) (m12 tri);
    mkTriangle (tc tri) (m31 tri) (m23 tri) ].

(** One round of the outer loop: [newTriangles] after the [forEach]. *)
Definition subdivideOnce (tris : list Triangle) : list Triangle :=
  flat_map subdivideTriangle tris.

(** [for (let i = 0; i < recursionDepth; i++)]: for an integer depth the
    body runs [recursionDepth] times, and not at all for a negative one. *)
Fixpoint subdivideRounds (rounds : nat) (tris : list Triangle) : list Triangle :=
  match rounds with
  | O => tris
  | S k => subdivideRounds k (subdivideOnce tris)
  end.

Definition subdivide (tris : list Triangle) (recursionDepth : Z) : list Triangle :=
  subdivideRounds (Z.to_nat recursionDepth) tris.

(** ** THREE.BufferAttribute and THREE.BufferGeometry *)

Definition ceilDiv (n d : nat) : nat := (n + d - 1) / d.

Record BufferAttribute : Type := mkAttr { array : list num; itemSize : nat }.

(** [attr.count] is the quotient [array.length / itemSize]; every use of it
    in the modelled code is a loop bound [i < attr.count], and [count] is
    the number of indices [i] below that quotient (for a positive item size,
    which is what every attribute built by three.js or by this program
    has). *)
Definition count (attr : BufferAttribute) : nat :=
  ceilDiv (length (array attr)) (itemSize attr).

Definition getX (attr : BufferAttribute) (i : nat) : num :=
  rd (array attr) (i * itemSize attr).
Definition getY (attr : BufferAttribute) (i : nat) : num :=
  rd (array attr) (i * itemSize attr + 1).
Definition getZ (attr : BufferAttribute) (i : nat) : num :=
  rd (array attr) (i * itemSize attr + 2).

Definition fromBufferAttribute (attr : BufferAttribute) (i : nat) : Vector3 :=
  mkVector3 (getX attr i) (getY attr i) (getZ attr i).

(** [attr.setXYZ(i, x, y, z)]: three writes from [i * itemSize] on. *)
Definition setXYZ (attr : BufferAttribute) (i : nat) (p : Vector3) : BufferAttribute :=
  mkAttr (<[i * itemSize attr + 2 := vz p]>
            (<[i * itemSize attr + 1 := vy p]>
               (<[i * itemSize attr := vx p]> (array attr))))
         (itemSize attr).

(** A geometry: its attribute object and its optional index buffer (an
    integer buffer of item size 1). *)
Record BufferGeometry : Type := mkGeometry {
  attributes : gmap string BufferAttribute;
  index : option (list nat)
}.

(** [new THREE.BufferGeometry()]. *)
Definition emptyGeometry : BufferGeometry := mkGeometry ∅ None.

Definition setAttribute (name : string) (attr : BufferAttribute)
    (g : BufferGeometry) : BufferGeometry :=
  mkGeometry (<[name := attr]> (attributes g)) (index g).

Definition getAttribute (name : string) (g : BufferGeometry) : option BufferAttribute :=
  attributes g !! name.

(** The parts of three.js that the generator calls and that are taken as
    given: the welding of coincident vertices, the computation of the vertex
    normals (which returns the geometry it has updated), and the base solid
    [new THREE.IcosahedronGeometry(4, 1)]. *)
Class ThreeLib : Type := {
  mergeVertices : BufferGeometry -> BufferGeometry;
  computeVertexNormals : BufferGeometry -> BufferGeometry;
  IcosahedronGeometry_4_1 : BufferGeometry
}.

(** ** createNeogenesisFractal *)

Definition undefinedVector : Vector3 := mkVector3 NaN NaN NaN.

(** [new THREE.Vector3().fromBufferAttribute(basePositions, index.getX(i))]:
    beyond the end of the index buffer [getX] is [undefined], and so are the
    three components read with it. *)
Definition vertexAt (pos : BufferAttribute) (oi : option nat) : Vector3 :=
  match oi with
  | Some i => fromBufferAttribute pos i
  | None => undefinedVector
  end.

Definition indexedTriangle (pos : BufferAttribute) (idx : list nat) (k : nat) : Triangle :=
  mkTriangle (vertexAt pos (idx !! (3 * k)%nat))
             (vertexAt pos (idx !! (3 * k + 1)%nat))
             (vertexAt pos (idx !! (3 * k + 2)%nat)).

Definition flatTriangle (pos : BufferAttribute) (k : nat) : Triangle :=
  mkTriangle (fromBufferAttribute pos (3 * k))
             (fromBufferAttribute pos (3 * k + 1))
             (fromBufferAttribute pos (3 * k + 2)).

(** Lines 14-33: the decomposition of the base geometry, [i] running over
    [0, 3, 6, ...] below the count.  Without a position attribute the first
    read throws. *)
Definition initialTriangles (g : BufferGeometry) : option (list Triangle) :=
  match index g, attributes g !! "position" with
  | Some idx, Some pos =>
      Some (map (indexedTriangle pos idx) (seq 0 (ceilDiv (length idx) 3)))
  | Some idx, None =>
      if (length idx =? 0)%nat then Some [] else None
  | None, Some pos =>
      Some (map (flatTriangle pos) (seq 0 (ceilDiv (count pos) 3)))
  | None, None => None
  end.

(** Lines 63-72: nine numbers for each triangle. *)
Definition triangleCoordinates (tri : Triangle) : list num :=
  [ vx (ta tri); vy (ta tri); vz (ta tri);
    vx (tb tri); vy (tb tri); vz (tb tri);
    vx (tc tri); vy (tc tri); vz (tc tri) ].

(** [BufferGeometryUtils.mergeGeometries] on one-triangle geometries that
    have a position attribute of item size 3 and nothing else: one geometry
    without index whose position buffer is the concatenation. *)
Definition mergeGeometries (tris : list Triangle) : BufferGeometry :=
  setAttribute "position" (mkAttr (flat_map triangleCoordinates tris) 3)
               emptyGeometry.

Definition createNeogenesisFractal `{ThreeLib} (baseGeometry : BufferGeometry)
    (recursionDepth : Z) : option BufferGeometry :=
  match initialTriangles baseGeometry with
  | None => None
  | Some tris =>
      if (recursionDepth =? 0)%Z then Some baseGeometry
      else
        let finalTriangles := subdivide tris recursionDepth in
        match finalTriangles with
        | [] => Some emptyGeometry
        | _ => Some (computeVertexNormals
                       (mergeVertices (mergeGeometries finalTriangles)))
        end
  end.

(** ** AudioProcessor *)

(** [frequencyData] is a [Uint8Array]: its elements are integers of
    [0 .. 255].  [frequencyBinCount] is [analyser.frequencyBinCount]. *)
Record AudioProcessor : Type := mkAudio {
  isInitialized : bool;
  frequencyData : list Z;
  frequencyBinCount : nat
}.

(** [analyser.getByteFrequencyData(arr)] overwrites [arr] with the bytes the
    analyser holds: what does not fit is dropped, what is not reached keeps
    its value. *)
Definition getByteFrequencyData (analyser arr : list Z) : list Z :=
  take (length arr) (analyser ++ drop (length analyser) arr).

(** [updateFrequencyData()]: the processor after the call; the value
    returned is its [frequencyData]. *)
Definition updateFrequencyData (analyser : list Z) (audio : AudioProcessor) : AudioProcessor :=
  if isInitialized audio
  then mkAudio true (getByteFrequencyData analyser (frequencyData audio))
               (frequencyBinCount audio)
  else mkAudio false (replicate (length (frequencyData audio)) 0%Z)
               (frequencyBinCount audio).

(** [arr.slice(start, end)] of a typed array, for bounds that are natural
    numbers. *)
Definition slice {A : Type} (arr : list A) (first last : nat) : list A :=
  take (last - first) (drop first arr).

(** [band.reduce((s, v) => s + v, 0) / (band.length * 255)]. *)
Definition bandAverage (band : list Z) : num :=
  Num.div (Num.of_Z (foldl Z.add 0%Z band))
          (Num.mul (Num.of_nat (length band)) (Fin 255)).

(** Lines 219-223.  A fractional bound of [slice] is truncated; the products
    [binCount * 0.1], [binCount * 0.4] and [binCount * 0.8] truncate to the
    integer quotients of [binCount], [4 * binCount] and [8 * binCount] by
    [10]. *)
Definition sampleBands (binCount : nat) (freqData : list Z) : num * num :=
  let bassFreqs := slice freqData 0 (binCount / 10) in
  let trebleFreqs := slice freqData (4 * binCount / 10) (8 * binCount / 10) in
  (bandAverage bassFreqs, bandAverage trebleFreqs).

(** ** The scene that the animation loop works on *)

(** The props that the modelled code reads. *)
Record NeogenesisProps : Type := mkProps {
  isAudioReactive : bool;
  bassSensitivity : num;
  trebleSensitivity : num;
  rotationSpeed : num;
  recursionDepth : Z;
  showFractal : bool;
  fractalWireframe : bool;
  particleDistributionRadius : num;
  fractalLayerSpacing : num;
  fractalMetalness : num;
  fractalRoughness : num;
  fractalWaveAmplitude : num;
  fractalWaveSmoothing : num
}.

Record Mesh : Type := mkMesh { rotationX : num; rotationY : num; scale : Vector3 }.

Record Material : Type := mkMaterial {
  wireframe : bool;
  metalness : num;
  roughness : num;
  emissiveIntensity : num
}.

(** The three meshes of the group hold one geometry object and one material
    object: they are stored once. *)
Record FractalGroup : Type := mkGroup {
  visible : bool;
  children : list Mesh;
  geometry : BufferGeometry;
  material : Material
}.

(** The refs of the hook and the two uniforms that the loop reads back.  The
    emissive colour, the colour uniforms, the clock, the camera and the
    render passes are not part of the model. *)
Record Scene : Type := mkScene {
  audioProcessor : option AudioProcessor;
  uBass : num;
  uTreble : num;
  fractalGroup : option FractalGroup;
  originalFractalPositions : option (list num);
  lastWireframeState : bool;
  particleSystem : option BufferGeometry
}.

(** ** animate: one tick *)

(** [freqData[k] / 255.0]; beyond the end (and for the index [i % 0], which
    is not a number) the read is [undefined] and the quotient [NaN]. *)
Definition freqValueAt (freqData : list Z) (k : nat) : num :=
  match freqData !! k with
  | Some v => Num.div (Num.of_Z v) (Fin 255)
  | None => NaN
  end.

(** Lines 254-270: the body of the loop over the vertices. *)
Definition displaceVertex (freqData : list Z) (currentProps : NeogenesisProps)
    (smoothedBass : num) (originalPositions : list num)
    (normals posAttr : BufferAttribute) (i : nat) : BufferAttribute :=
  let binCount := length freqData in
  let freqIndex := i mod binCount in
  let freqValue := freqValueAt freqData freqIndex in
  let displacement :=
    Num.mul (Num.mul freqValue (fractalWaveAmplitude currentProps))
            (Num.add (Fin 1) smoothedBass) in
  let ox := rd originalPositions (i * 3) in
  let oy := rd originalPositions (i * 3 + 1) in
  let oz := rd originalPositions (i * 3 + 2) in
  let nx := getX normals i in
  let ny := getY normals i in
  let nz := getZ normals i in
  let targetPos :=
    mkVector3 (Num.add ox (Num.mul nx displacement))
              (Num.add oy (Num.mul ny displacement))
              (Num.add oz (Num.mul nz displacement)) in
  let currentPos := fromBufferAttribute posAttr i in
  setXYZ posAttr i (Vec.lerp currentPos targetPos (fractalWaveSmoothing currentProps)).

(** Lines 253-271: [for (let i = 0; i < posAttr.count; i++)]. *)
Definition displaceVertices (freqData : list Z) (currentProps : NeogenesisProps)
    (smoothedBass : num) (originalPositions : list num)
    (normals posAttr : BufferAttribute) : BufferAttribute :=
  foldl (displaceVertex freqData currentProps smoothedBass originalPositions normals)
        posAttr (seq 0 (count posAttr)).

(** [target.set(source)] on typed arrays: a [RangeError] when the source
    does not fit. *)
Definition typedArraySet (target source : list num) : option (list num) :=
  if (length source <=? length target)%nat
  then Some (source ++ drop (length source) target)
  else None.

(** Lines 245-282: what the tick does to the shared geometry. *)
Definition updateFractalGeometry (currentProps : NeogenesisProps)
    (audio : option AudioProcessor) (freqData : option (list Z)) (smoothedBass : num)
    (originalPositions : option (list num)) (lastWireframe : bool)
    (fractalGeo : BufferGeometry) : option BufferGeometry :=
  if fractalWireframe currentProps then
    match audio, freqData, originalPositions, attributes fractalGeo !! "normal" with
    | Some _, Some fd, Some orig, Some normals =>
        match attributes fractalGeo !! "position" with
        | Some posAttr =>
            Some (setAttribute "position"
                    (displaceVertices fd currentProps smoothedBass orig normals posAttr)
                    fractalGeo)
        | None => None
        end
    | _, _, _, _ => Some fractalGeo
    end
  else if lastWireframe then
    match originalPositions with
    | Some orig =>
        match attributes fractalGeo !! "position" with
        | Some posAttr =>
            match typedArraySet (array posAttr) orig with
            | Some arr =>
                Some (setAttribute "position" (mkAttr arr (itemSize posAttr)) fractalGeo)
            | None => None
            end
        | None => None
        end
    | None => Some fractalGeo
    end
  else Some fractalGeo.

(** Lines 284-302: rotation and scale of the layer [i]. *)
Definition updateLayer (currentProps : NeogenesisProps) (smoothedBass : num)
    (i : nat) (mesh : Mesh) : Mesh :=
  let spacing := fractalLayerSpacing currentProps in
  let baseScale :=
    match i with
    | 0%nat => Fin 1
    | 1%nat => spacing
    | 2%nat => Num.mul spacing spacing
    | _ => NaN
    end in
  let speedFactor := Num.mul (Num.of_nat (i + 1)) (Fin (6 / 10)%R) in
  let ry := Num.add (rotationY mesh)
              (Num.mul (Num.mul (Fin (5 / 10000)%R) (rotationSpeed currentProps)) speedFactor) in
  let rx := Num.sub (rotationX mesh)
              (Num.mul (Num.mul (Fin (3 / 10000)%R) (rotationSpeed currentProps)) speedFactor) in
  let s :=
    if fractalWireframe currentProps then baseScale
    else Num.mul baseScale (Num.add (Fin 1) (Num.mul smoothedBass (Fin (1 / 10)%R))) in
  mkMesh rx ry (mkVector3 s s s).

(** Lines 215-224: the audio data of the tick: the processor after the call,
    [freqData], [bassAvg] and [trebleAvg]. *)
Definition processAudio (currentProps : NeogenesisProps) (analyser : list Z)
    (audio : option AudioProcessor)
    : option AudioProcessor * option (list Z) * num * num :=
  match audio with
  | Some a =>
      if isAudioReactive currentProps then
        let a' := updateFrequencyData analyser a in
        let freqData := frequencyData a' in
        let bands := sampleBands (frequencyBinCount a') freqData in
        (Some a', Some freqData, bands.1, bands.2)
      else (audio, None, Fin 0, Fin 0)
  | None => (None, None, Fin 0, Fin 0)
  end.

(** One call of [animate], lines 208-339, with the props current at the tick
    and the bytes the analyser holds.  [None]: the tick throws. *)
Definition animate (currentProps : NeogenesisProps) (analyser : list Z)
    (st : Scene) : option Scene :=
  let '(audio', freqData, bassAvg, trebleAvg) :=
    processAudio currentProps analyser (audioProcessor st) in
  let smoothedBass :=
    Num.lerp (uBass st) (Num.mul bassAvg (bassSensitivity currentProps)) (Fin (1 / 10)%R) in
  let smoothedTreble :=
    Num.lerp (uTreble st) (Num.mul trebleAvg (trebleSensitivity currentProps)) (Fin (1 / 10)%R) in
  let uniforms :=
    match particleSystem st with
    | Some _ => (smoothedBass, smoothedTreble)
    | None => (uBass st, uTreble st)
    end in
  match fractalGroup st with
  | None =>
      Some (mkScene audio' uniforms.1 uniforms.2 None
              (originalFractalPositions st) (lastWireframeState st)
              (particleSystem st))
  | Some group =>
      match children group with
      | [] => None
      | _ :: _ =>
          let isWireframe := fractalWireframe currentProps in
          let fractalMat :=
            mkMaterial isWireframe (fractalMetalness currentProps)
              (fractalRoughness currentProps)
              (Num.lerp (emissiveIntensity (material group))
                 (Num.add (Fin 1) (Num.mul smoothedBass (Fin 4))) (Fin (1 / 10)%R)) in
          match updateFractalGeometry currentProps audio' freqData smoothedBass
                  (originalFractalPositions st) (lastWireframeState st)
                  (geometry group) with
          | None => None
          | Some fractalGeo =>
              Some (mkScene audio' uniforms.1 uniforms.2
                      (Some (mkGroup (showFractal currentProps)
                               (imap (updateLayer currentProps smoothedBass) (children group))
                               fractalGeo fractalMat))
                      (originalFractalPositions st) isWireframe
                      (particleSystem st))
          end
      end
  end.

(** ** The particle field *)

Definition PARTICLE_COUNT : nat := Z.to_nat 20000.

(** [Math.cbrt] on the reals. *)
Definition cbrt (x : R) : R :=
  if Rlt_dec 0 x then Rpower x (/ 3)
  else if Rlt_dec x 0 then (- Rpower (- x) (/ 3))%R
  else 0%R.

(** [Math.acos]: not a number outside [-1, 1]. *)
Definition acosNum (p : num) : num :=
  match p with
  | Fin u => if Rle_dec (-1) u then if Rle_dec u 1 then Fin (acos u) else NaN else NaN
  | NaN => NaN
  end.

Definition lift1 (f : R -> R) (p : num) : num :=
  match p with Fin u => Fin (f u) | NaN => NaN end.

(** Lines 26-34: the position of one particle from the three numbers that
    the three calls of [Math.random()] return, in the order of the calls. *)
Definition particlePosition (radius : num) (u v w : R) : Vector3 :=
  let theta := Num.mul (Num.mul (Fin 2) (Fin PI)) (Fin u) in
  let phi := acosNum (Num.sub (Num.mul (Fin 2) (Fin v)) (Fin 1)) in
  let r := Num.mul radius (Fin (cbrt w)) in
  mkVector3 (Num.mul (Num.mul r (lift1 sin phi)) (lift1 cos theta))
            (Num.mul (Num.mul r (lift1 sin phi)) (lift1 sin theta))
            (Num.mul r (lift1 cos phi)).

Definition vectorCoordinates (p : Vector3) : list num := [vx p; vy p; vz p].

(** [createParticleGeometry(count, radius)].  [random k] is what the call
    number [k] of [Math.random()] returns within this call of the function:
    a real of [0, 1). *)
Definition particlePositions (count : nat) (radius : num) (random : nat -> R) : list num :=
  flat_map (fun i => vectorCoordinates
                       (particlePosition radius (random (3 * i)%nat)
                          (random (3 * i + 1)%nat) (random (3 * i + 2)%nat)))
           (seq 0 count).

Definition createParticleGeometry (count : nat) (radius : num) (random : nat -> R)
    : BufferGeometry :=
  let positions := particlePositions count radius random in
  let initialPositions := positions in
  setAttribute "initialPosition" (mkAttr initialPositions 3)
    (setAttribute "position" (mkAttr positions 3) emptyGeometry).

(** [geo.setAttribute(name, old.getAttribute(name))]: an attribute that the
    old geometry does not have is [undefined] in the new one too. *)
Definition copyAttribute (name : string) (old geo : BufferGeometry) : BufferGeometry :=
  match getAttribute name old with
  | Some attr => setAttribute name attr geo
  | None => mkGeometry (delete name (attributes geo)) (index geo)
  end.

(** ** The two effects that regenerate a geometry *)

(** Lines 392-404, run when [props.particleDistributionRadius] changes. *)
Definition regenerateParticles (radius : num) (random : nat -> R) (st : Scene) : Scene :=
  match particleSystem st with
  | None => st
  | Some oldGeo =>
      let newParticleGeo :=
        copyAttribute "random" oldGeo
          (copyAttribute "size" oldGeo
             (copyAttribute "color" oldGeo
                (createParticleGeometry PARTICLE_COUNT radius random))) in
      mkScene (audioProcessor st) (uBass st) (uTreble st) (fractalGroup st)
              (originalFractalPositions st) (lastWireframeState st)
              (Some newParticleGeo)
  end.

(** Lines 375-390, run when [props.recursionDepth] changes.  [None]: the
    effect throws. *)
Definition regenerateFractal `{ThreeLib} (depth : Z) (st : Scene) : option Scene :=
  match fractalGroup st with
  | None => Some st
  | Some group =>
      match children group with
      | [] => Some st
      | _ :: _ =>
          match createNeogenesisFractal IcosahedronGeometry_4_1 depth with
          | None => None
          | Some newFractalGeo =>
              match attributes newFractalGeo !! "position" with
              | None => None
              | Some posAttr =>
                  Some (mkScene (audioProcessor st) (uBass st) (uTreble st)
                          (Some (mkGroup (visible group) (children group)
                                   newFractalGeo (material group)))
                          (Some (array posAttr)) (lastWireframeState st)
                          (particleSystem st))
              end
          end
      end
  end.

(** ** Runs of the hook after it has mounted *)

Inductive Event : Type :=
| Tick (currentProps : NeogenesisProps) (analyser : list Z)
| DepthChanged (depth : Z)
| RadiusChanged (radius : num) (random : nat -> R).

Definition step `{ThreeLib} (e : Event) (st : Scene) : option Scene :=
  match e with
  | Tick currentProps analyser => animate currentProps analyser st
  | DepthChanged depth => regenerateFractal depth st
  | RadiusChanged radius random => Some (regenerateParticles radius random st)
  end.

Fixpoint run `{ThreeLib} (events : list Event) (st : Scene) : option Scene :=
  match events with
  | [] => Some st
  | e :: rest =>
      match step e st with
      | Some st' => run rest st'
      | None => None
      end
  end.

(** ** The rest of AudioProcessor *)

(** [new AudioProcessor(fftSize)]: the analyser has [fftSize / 2] bins, the
    frame buffer is a fresh [Uint8Array] of that length (all zero), and the
    processor is not connected. *)
Definition newAudioProcessor (fftSize : nat) : AudioProcessor :=
  mkAudio false (replicate (fftSize / 2) 0%Z) (fftSize / 2).

(** [connectFile], and [connectMicrophone] when the stream is granted: of
    the fields of the model only [isInitialized] changes. *)
Definition connect (audio : AudioProcessor) : AudioProcessor :=
  mkAudio true (frequencyData audio) (frequencyBinCount audio).

(** ** The mount effect of the hook, lines 69-372 *)

(** The two colours of [themeColors[props.theme]] that the mount reads
    for the particles. *)
Record Color : Type := mkColor { cr : num; cg : num; cb : num }.

(** Lines 131-136: colour, size and random number of one particle, from the
    three numbers that its three calls of [Math.random()] return. *)
Definition particleColor (color1 color2 : Color) (x : R) : Color :=
  if Rlt_dec (1 / 2) x then color1 else color2.

Definition particleSize (x : R) : num := Fin (x * (15 / 10) + 5 / 10)%R.

Definition colorCoordinates (c : Color) : list num := [cr c; cg c; cb c].

(** Lines 126-139: the particle geometry of the mount.  The first
    [3 * PARTICLE_COUNT] calls of [Math.random()] are those of the loop of
    [createParticleGeometry]; the next four are spent by
    [new THREE.BufferGeometry()] at line 42 on the uuid of the geometry; the
    particle [i] then takes the call [3 * PARTICLE_COUNT + 4 + 3 i] and the
    two that follow. *)
Definition mountParticles (radius : num) (color1 color2 : Color)
    (random : nat -> R) : BufferGeometry :=
  let later k := random (3 * PARTICLE_COUNT + 4 + k)%nat in
  let colors :=
    flat_map (fun i => colorCoordinates (particleColor color1 color2 (later (3 * i)%nat)))
             (seq 0 PARTICLE_COUNT) in
  let sizes := map (fun i => particleSize (later (3 * i + 1)%nat)) (seq 0 PARTICLE_COUNT) in
  let randoms := map (fun i => Fin (later (3 * i + 2)%nat)) (seq 0 PARTICLE_COUNT) in
  setAttribute "random" (mkAttr randoms 1)
    (setAttribute "size" (mkAttr sizes 1)
       (setAttribute "color" (mkAttr colors 3)
          (createParticleGeometry PARTICLE_COUNT radius random))).

(** Lines 117-122: the three meshes, unrotated, at the scales [1],
    [spacing] and [spacing * spacing]. *)
Definition mountLayers (initialSpacing : num) : list Mesh :=
  map (fun s => mkMesh (Fin 0) (Fin 0) (mkVector3 s s s))
      [Fin 1; initialSpacing; Num.mul initialSpacing initialSpacing].

(** Lines 69-203: the scene that the mount effect has built when it reaches
    the animation loop, with the props of the first render and for the audio
    processor that the ref holds.  [None]: the effect throws (the generator
    throws, or its geometry has no position attribute to take the snapshot
    of). *)
Definition mount `{ThreeLib} (props : NeogenesisProps) (color1 color2 : Color)
    (audio : option AudioProcessor) (random : nat -> R) : option Scene :=
  match createNeogenesisFractal IcosahedronGeometry_4_1 (recursionDepth props) with
  | None => None
  | Some fractalGeo =>
      match attributes fractalGeo !! "position" with
      | None => None
      | Some posAttr =>
          let fractalMaterial :=
            mkMaterial (fractalWireframe props) (fractalMetalness props)
                       (fractalRoughness props) (Fin 1) in
          let group :=
            mkGroup true (mountLayers (fractalLayerSpacing props)) fractalGeo
                    fractalMaterial in
          Some (mkScene audio (Fin 0) (Fin 0) (Some group) (Some (array posAttr))
                  (fractalWireframe props)
                  (Some (mountParticles (particleDistributionRadius props)
                           color1 color2 random)))
      end
  end.

(** The mount effect as a whole: it builds the scene and, at line 340, calls
    [animate()] once before it returns.  [propsRef.current] is still the
    props of the first render; [analyser] is what the analyser holds at that
    call. *)
Definition mountEffect `{ThreeLib} (props : NeogenesisProps) (color1 color2 : Color)
    (audio : option AudioProcessor) (random : nat -> R) (analyser : list Z) :
    option Scene :=
  match mount props color1 color2 audio random with
  | Some st => animate props analyser st
  | None => None
  end.

(** ** The camera, lines 325-334 *)



(** Line 334: [camera.fov = lerp(camera.fov, currentProps.fieldOfView, 0.1)]. *)
Definition updateFov (fieldOfView fov : num) : num :=
  Num.lerp fov fieldOfView (Fin (1 / 10)%R).

(** ** The notions that the properties are stated with *)

Definition vec (x y z : R) : Vector3 := mkVector3 (Fin x) (Fin y) (Fin z).

Definition zeroVector : Vector3 := vec 0 0 0.

(** A point of space with real coordinates, its vector, and its distance
    from the origin. *)
Definition point : Type := (R * R * R)%type.

Definition ofPoint (p : point) : Vector3 := vec p.1.1 p.1.2 p.2.

Definition norm (p : point) : R :=
  sqrt (p.1.1 * p.1.1 + p.1.2 * p.1.2 + p.2 * p.2).

(** The midpoint of [p] and [q] projected onto the sphere of the given
    radius about the origin, as the specification words it: the midpoint,
    normalised, then scaled by the radius.  The midpoint at the origin has
    no direction; it stays at the origin. *)
Definition midpointOnSphere (radius : R) (p q : point) : point :=
  let mx := ((p.1.1 + q.1.1) / 2)%R in
  let my := ((p.1.2 + q.1.2) / 2)%R in
  let mz := ((p.2 + q.2) / 2)%R in
  let len := norm (mx, my, mz) in
  if Req_dec_T len 0 then (0, 0, 0)%R
  else (mx / len * radius, my / len * radius, mz / len * radius)%R.

(** The mean of the normalised magnitudes [frame[i] / 255] over the bins
    [first <= i < last], as the specification words it. *)
Definition meanOver (frame : list Z) (first last : nat) : R :=
  (foldr (fun i acc => IZR (default 0%Z (frame !! i)) / 255 + acc) 0
         (seq first (last - first))
   / INR (last - first))%R.

(** The value of [smoothedBass] in the tick that [animate] runs on [st]. *)
Definition smoothedBassOf (currentProps : NeogenesisProps) (analyser : list Z)
    (st : Scene) : num :=
  let bassAvg := (processAudio currentProps analyser (audioProcessor st)).1.2 in
  Num.lerp (uBass st) (Num.mul bassAvg (bassSensitivity currentProps)) (Fin (1 / 10)%R).

(** The magnitude of the bin [i mod frameLength] of the frame, normalised
    to [0, 1] by dividing by 255, as the specification words it; not a
    number for the empty frame. *)
Definition normalizedBin (frame : list Z) (i : nat) : num :=
  match frame !! (i mod length frame)%nat with
  | Some magnitude => Fin (IZR magnitude / 255)%R
  | None => NaN
  end.

(** The new value of one coordinate of the vertex [i] in Deforming mode, as
    the specification words it: the frequency value of the vertex, the
    target displacement, the target position, and the step from the current
    position towards it. *)
Definition deformedCoordinate (frame : list Z)
    (waveAmplitude smoothedBass waveSmoothing : num) (i : nat)
    (restingPosition normal current : num) : num :=
  let freqValue := normalizedBin frame i in
  let targetDisplacement :=
    Num.mul (Num.mul freqValue waveAmplitude) (Num.add (Fin 1) smoothedBass) in
  let targetPosition := Num.add restingPosition (Num.mul normal targetDisplacement) in
  Num.add current (Num.mul (Num.sub targetPosition current) waveSmoothing).


Definition triangleVertices (tri : Triangle) : list Vector3 := [ta tri; tb tri; tc tri].

(** A vertex with finite coordinates at distance [r] from the origin, or at
    the origin. *)
Definition onSphereOrOrigin (r : R) (v : Vector3) : Prop :=
  Vec.finite v /\ (Vec.length v = Fin r \/ Vec.length v = Fin 0).

(** An element of a [Uint8Array]. *)
Definition isByte (v : Z) : Prop := (0 <= v <= 255)%Z.

(** The frame buffer of the processor has one byte for each bin. *)
Definition audioSized (a : AudioProcessor) : Prop :=
  length (frequencyData a) = frequencyBinCount a /\ Forall isByte (frequencyData a).

(** The run that consists of one tick for each pair of props and analyser
    bytes. *)
Definition ticks (frames : list (NeogenesisProps * list Z)) : list Event :=
  map (fun frame => Tick frame.1 frame.2) frames.

(** The buffer of the position attribute of the fractal geometry. *)
Definition positionsOf (st : Scene) : option (list num) :=
  match fractalGroup st with
  | Some group => array <$> attributes (geometry group) !! "position"
  | None => None
  end.

(** ** The invariants of a run *)

(** The normal attribute that the meshes of the scene are drawn with. *)
Definition normalsOf (st : Scene) : option BufferAttribute :=
  match fractalGroup st with
  | Some group => attributes (geometry group) !! "normal"
  | None => None
  end.

(** The depth of the last regeneration in a run that starts at [depth0]. *)
Definition currentDepth (depth0 : Z) (events : list Event) : Z :=
  foldl (fun depth e => match e with DepthChanged d => d | _ => depth end)
        depth0 events.

Definition keepsGeometry (e : Event) : Prop :=
  match e with DepthChanged _ => False | _ => True end.

(** The scene holds the normals that the generator computes at [depth]. *)
Definition builtAt `{ThreeLib} (depth : Z) (st : Scene) : Prop :=
  exists group fresh,
    fractalGroup st = Some group /\
    createNeogenesisFractal IcosahedronGeometry_4_1 depth = Some fresh /\
    attributes (geometry group) !! "normal" = attributes fresh !! "normal".

(** What the mount and the regeneration effect establish: three layers on a
    geometry with a position buffer, and a snapshot of that length. *)
Definition wellFormed (st : Scene) : Prop :=
  exists group posAttr orig,
    fractalGroup st = Some group /\
    children group <> [] /\
    attributes (geometry group) !! "position" = Some posAttr /\
    originalFractalPositions st = Some orig /\
    length orig = length (array posAttr).

(** ** Sample data *)

(** A triangle of the unit sphere, and one whose first edge joins two
    antipodal points. *)
Definition octantTriangle : Triangle :=
  mkTriangle (vec 1 0 0) (vec 0 1 0) (vec 0 0 1).

Definition antipodalTriangle : Triangle :=
  mkTriangle (vec 1 0 0) (vec (-1) 0 0) (vec 0 1 0).

(** The geometry of one triangle, as [mergeGeometries] builds it. *)
Definition oneTriangleGeometry : BufferGeometry := mergeGeometries [octantTriangle].

(** A stand-in for three.js with which the theorems below are instantiated:
    it welds nothing, takes the position of a vertex for its normal, and
    has the one-triangle geometry for base solid. *)
Definition sampleThree : ThreeLib := {|
  mergeVertices := fun g => g;
  computeVertexNormals := fun g =>
    match attributes g !! "position" with
    | Some pos => setAttribute "normal" pos g
    | None => g
    end;
  IcosahedronGeometry_4_1 := oneTriangleGeometry
|}.

(** A scene for the instances: the one-triangle geometry with the normal
    of each vertex, three layers, an audio processor of sixteen bins that is
    connected, and the props that App.tsx starts from (but for the
    wireframe flag). *)
Definition sampleGeometry : BufferGeometry :=
  setAttribute "normal" (mkAttr (triangleCoordinates octantTriangle) 3)
               oneTriangleGeometry.

Definition sampleAudio : AudioProcessor := mkAudio true (replicate 16 0%Z) 16.

Definition sampleProps (isWireframe : bool) : NeogenesisProps :=
  mkProps true (Fin 1) (Fin 1) (Fin (2 / 10)%R) 2 true isWireframe (Fin 10)
          (Fin (7 / 10)%R) (Fin (1 / 10)%R) (Fin (5 / 10)%R)
          (Fin (25 / 100)%R) (Fin (1 / 10)%R).

Definition sampleMesh : Mesh := mkMesh (Fin 0) (Fin 0) (vec 1 1 1).

Definition sampleGroup : FractalGroup :=
  mkGroup true [sampleMesh; sampleMesh; sampleMesh] sampleGeometry
          (mkMaterial false (Fin (1 / 10)%R) (Fin (5 / 10)%R) (Fin 1)).

Definition sampleScene (audio : option AudioProcessor)
    (originalPositions : option (list num)) (lastWireframe : bool) : Scene :=
  mkScene audio (Fin 0) (Fin 0) (Some sampleGroup) originalPositions
          lastWireframe None.

(** The scene as the mount leaves it over the stand-in for three.js at
    depth 1: the geometry of the generator in the three layers, and the
    snapshot of its positions. *)
Definition sampleBuiltScene : option Scene :=
  @regenerateFractal sampleThree 1
     (sampleScene (Some sampleAudio) None false).

(** A particle field for the instances: colour, size and random buffers
    of the right lengths on a geometry of radius 10 for which every call of
    [Math.random()] has returned one half. *)
Definition withParticleAttributes (geo : BufferGeometry) : BufferGeometry :=
  setAttribute "random" (mkAttr (replicate PARTICLE_COUNT (Fin (1 / 2)%R)) 1)
    (setAttribute "size" (mkAttr (replicate PARTICLE_COUNT (Fin 1)) 1)
       (setAttribute "color" (mkAttr (replicate (PARTICLE_COUNT * 3) (Fin 1)) 3) geo)).

Definition sampleOldParticles : BufferGeometry :=
  withParticleAttributes
    (createParticleGeometry PARTICLE_COUNT (Fin 10) (fun _ => (1 / 2)%R)).


(** The props of App.tsx with audio reactivity switched off, and a scene
    with a particle field and smoothed bass and treble of 1. *)
Definition quietProps : NeogenesisProps :=
  mkProps false (Fin 1) (Fin 1) (Fin (2 / 10)%R) 2 true false (Fin 10)
          (Fin (7 / 10)%R) (Fin (1 / 10)%R) (Fin (5 / 10)%R)
          (Fin (25 / 100)%R) (Fin (1 / 10)%R).

Definition sampleLoudScene : Scene :=
  mkScene (Some sampleAudio) (Fin 1) (Fin 1) (Some sampleGroup)
          (Some (triangleCoordinates octantTriangle)) false
          (Some sampleOldParticles).

(** A stand-in for three.js whose base solid has a position buffer of
    length 0, and two colours. *)
Definition emptyThree : ThreeLib := {|
  mergeVertices := fun g => g;
  computeVertexNormals := fun g => g;
  IcosahedronGeometry_4_1 := mergeGeometries []
|}.

Definition sampleColor1 : Color := mkColor (Fin 1) (Fin 0) (Fin 1).
Definition sampleColor2 : Color := mkColor (Fin 0) (Fin (6 / 10)%R) (Fin 1).

(** * Properties *)

(** ** Lists of blocks of a fixed width *)

Section FixedWidth.

Context {A B : Type} (f : A -> list B) (w : nat).
Hypothesis width : forall a, length (f a) = w.

Lemma length_flat_map_fixed (l : list A) :
  length (flat_map f l) = (w * length l)%nat.
Proof.
  induction l as [|a l IH]; simpl.
  - lia.
  - rewrite length_app, width, IH. lia.
Qed.

Lemma lookup_flat_map_fixed (l : list A) (i k : nat) (a : A) :
  l !! i = Some a -> (k < w)%nat ->
  flat_map f l !! (w * i + k)%nat = f a !! k.
Proof.
  revert i. induction l as [|b l IH]; intros i Hi Hk; [done|].
  destruct i as [|i]; simpl in *.
  - injection Hi as ->.
    rewrite lookup_app_l by (rewrite width; lia).
    f_equal. lia.
  - rewrite lookup_app_r by (rewrite width; lia).
    rewrite width. rewrite <- (IH i Hi Hk). f_equal. lia.
Qed.

End FixedWidth.

(** ** The size of a subdivision *)

Lemma length_subdivideOnce (tris : list Triangle) :
  length (subdivideOnce tris) = (3 * length tris)%nat.
Proof. apply length_flat_map_fixed. reflexivity. Qed.

Lemma length_subdivideRounds (rounds : nat) (tris : list Triangle) :
  length (subdivideRounds rounds tris) = (length tris * 3 ^ rounds)%nat.
Proof.
  revert tris. induction rounds as [|k IH]; intros tris; simpl.
  - lia.
  - rewrite IH, length_subdivideOnce. lia.
Qed.

(** ** Arithmetic of finite numbers and vectors *)

Section NumFacts.

#[local] Open Scope R_scope.

Lemma sqrt_Fin (u : R) : 0 <= u -> Num.sqrt (Fin u) = Fin (sqrt u).
Proof. intros Hu. unfold Num.sqrt. destruct (Rlt_dec u 0); [lra | reflexivity]. Qed.

Lemma div_Fin (u v : R) : v <> 0 -> Num.div (Fin u) (Fin v) = Fin (u / v).
Proof. intros Hv. unfold Num.div. destruct (Req_dec_T v 0); [contradiction | reflexivity]. Qed.

Lemma or_else_Fin (u : R) (q : num) : u <> 0 -> Num.or_else (Fin u) q = Fin u.
Proof. intros Hu. unfold Num.or_else. destruct (Req_dec_T u 0); [contradiction | reflexivity]. Qed.

Lemma or_else_zero (q : num) : Num.or_else (Fin 0) q = q.
Proof. unfold Num.or_else. destruct (Req_dec_T 0 0); [reflexivity | contradiction]. Qed.

Lemma addVectors_Fin (a b c d e f : R) :
  Vec.addVectors (mkVector3 (Fin a) (Fin b) (Fin c)) (mkVector3 (Fin d) (Fin e) (Fin f))
  = mkVector3 (Fin (a + d)) (Fin (b + e)) (Fin (c + f)).
Proof. reflexivity. Qed.

Lemma multiplyScalar_Fin (a b c s : R) :
  Vec.multiplyScalar (mkVector3 (Fin a) (Fin b) (Fin c)) (Fin s)
  = mkVector3 (Fin (a * s)) (Fin (b * s)) (Fin (c * s)).
Proof. reflexivity. Qed.

Lemma length_Fin (x y z : R) :
  Vec.length (mkVector3 (Fin x) (Fin y) (Fin z)) = Fin (sqrt (x * x + y * y + z * z)).
Proof. unfold Vec.length. cbn. apply sqrt_Fin. nra. Qed.

Lemma length_projectedMidpoint_Fin (r px py pz qx qy qz : R) :
  0 <= r ->
  ~ (px + qx = 0 /\ py + qy = 0 /\ pz + qz = 0) ->
  Vec.length (projectedMidpoint (Fin r) (mkVector3 (Fin px) (Fin py) (Fin pz))
                (mkVector3 (Fin qx) (Fin qy) (Fin qz))) = Fin r.
Proof.
  intros Hr Hm.
  unfold projectedMidpoint, Vec.normalize, Vec.divideScalar.
  rewrite addVectors_Fin, multiplyScalar_Fin, length_Fin.
  set (mx := (px + qx) * (1 / 2)). set (my := (py + qy) * (1 / 2)).
  set (mz := (pz + qz) * (1 / 2)).
  set (S := mx * mx + my * my + mz * mz).
  assert (HS : 0 < S).
  { assert (0 <= S) by (unfold S; nra).
    destruct (Req_dec S 0) as [H0|]; [|lra].
    exfalso. apply Hm.
    pose proof (Rle_0_sqr mx) as Hx. pose proof (Rle_0_sqr my) as Hy.
    pose proof (Rle_0_sqr mz) as Hz. unfold Rsqr in Hx, Hy, Hz.
    assert (mx = 0) by (apply Rsqr_0_uniq; unfold Rsqr, S in *; lra).
    assert (my = 0) by (apply Rsqr_0_uniq; unfold Rsqr, S in *; lra).
    assert (mz = 0) by (apply Rsqr_0_uniq; unfold Rsqr, S in *; lra).
    unfold mx, my, mz in *. repeat split; lra. }
  assert (HL : 0 < sqrt S) by (apply sqrt_lt_R0; exact HS).
  assert (HLL : sqrt S * sqrt S = S) by (apply sqrt_sqrt; lra).
  rewrite or_else_Fin, div_Fin by lra.
  rewrite !multiplyScalar_Fin, length_Fin.
  f_equal.
  set (L := sqrt S) in *. clearbody L.
  replace (mx * (1 / L) * r * (mx * (1 / L) * r)
           + my * (1 / L) * r * (my * (1 / L) * r)
           + mz * (1 / L) * r * (mz * (1 / L) * r))
    with (r * r * (S / (L * L))) by (unfold S; field; lra).
  rewrite HLL.
  replace (r * r * (S / S)) with (r * r) by (field; lra).
  apply sqrt_square. exact Hr.
Qed.

Lemma length_projectedMidpoint_origin (r px py pz qx qy qz : R) :
  px + qx = 0 -> py + qy = 0 -> pz + qz = 0 ->
  Vec.length (projectedMidpoint (Fin r) (mkVector3 (Fin px) (Fin py) (Fin pz))
                (mkVector3 (Fin qx) (Fin qy) (Fin qz))) = Fin 0.
Proof.
  intros Ex Ey Ez.
  unfold projectedMidpoint, Vec.normalize, Vec.divideScalar.
  rewrite addVectors_Fin, multiplyScalar_Fin, length_Fin, Ex, Ey, Ez.
  replace (0 * (1 / 2) * (0 * (1 / 2)) + 0 * (1 / 2) * (0 * (1 / 2))
           + 0 * (1 / 2) * (0 * (1 / 2))) with 0 by lra.
  rewrite sqrt_0, or_else_zero, div_Fin by lra.
  rewrite !multiplyScalar_Fin, length_Fin.
  replace (0 * (1 / 2) * (1 / 1) * r * (0 * (1 / 2) * (1 / 1) * r)
           + 0 * (1 / 2) * (1 / 1) * r * (0 * (1 / 2) * (1 / 1) * r)
           + 0 * (1 / 2) * (1 / 1) * r * (0 * (1 / 2) * (1 / 1) * r)) with 0 by ring.
  rewrite sqrt_0. reflexivity.
Qed.

(** [THREE.MathUtils.lerp(x, y, 0.1)]. *)
Lemma lerp_tenth (x y : R) :
  Num.lerp (Fin x) (Fin y) (Fin (1 / 10)) = Fin (y + 9 / 10 * (x - y)).
Proof. unfold Num.lerp. cbn [Num.mul Num.add Num.sub Num.lift2]. f_equal. field. Qed.

End NumFacts.


(** ** C1: three children for each triangle *)

Section Midpoints.

#[local] Open Scope R_scope.

Lemma norm_zero (x y z : R) : norm (x, y, z) = 0 -> x = 0 /\ y = 0 /\ z = 0.
Proof.
  unfold norm; cbn [fst snd]. intros H0.
  pose proof (Rle_0_sqr x) as Hx. pose proof (Rle_0_sqr y) as Hy.
  pose proof (Rle_0_sqr z) as Hz. unfold Rsqr in Hx, Hy, Hz.
  apply sqrt_eq_0 in H0; [|lra].
  repeat split; apply Rsqr_0_uniq; unfold Rsqr; lra.
Qed.

(** The midpoint that the code computes with [addVectors], [multiplyScalar],
    [normalize] and [multiplyScalar] is the midpoint of the two points,
    normalised and scaled by the radius; at the origin, where [normalize]
    divides by [1], it is the origin. *)
Lemma projectedMidpoint_ofPoint (radius : R) (p q : point) :
  projectedMidpoint (Fin radius) (ofPoint p) (ofPoint q)
  = ofPoint (midpointOnSphere radius p q).
Proof.
  destruct p as [[px py] pz], q as [[qx qy] qz].
  unfold ofPoint, vec, midpointOnSphere; cbn [fst snd].
  unfold projectedMidpoint, Vec.normalize, Vec.divideScalar.
  rewrite addVectors_Fin, multiplyScalar_Fin, length_Fin.
  replace ((px + qx) * (1 / 2)) with ((px + qx) / 2) by lra.
  replace ((py + qy) * (1 / 2)) with ((py + qy) / 2) by lra.
  replace ((pz + qz) * (1 / 2)) with ((pz + qz) / 2) by lra.
  set (mx := (px + qx) / 2). set (my := (py + qy) / 2). set (mz := (pz + qz) / 2).
  change (sqrt (mx * mx + my * my + mz * mz)) with (norm (mx, my, mz)).
  destruct (Req_dec_T (norm (mx, my, mz)) 0) as [H0|Hne].
  - rewrite H0, or_else_zero, div_Fin by lra.
    destruct (norm_zero _ _ _ H0) as (-> & -> & ->).
    rewrite !multiplyScalar_Fin. cbn [fst snd].
    f_equal; f_equal; lra.
  - rewrite or_else_Fin, div_Fin by exact Hne.
    rewrite !multiplyScalar_Fin. cbn [fst snd].
    f_equal; f_equal; field; exact Hne.
Qed.

Lemma length_ofPoint (p : point) : Vec.length (ofPoint p) = Fin (norm p).
Proof. destruct p as [[x y] z]. apply length_Fin. Qed.

End Midpoints.

(** C1.  One round of the subdivision replaces the triangle number [k],
    [(a, b, c)], by the three triangles [(a, m_ab, m_ca)], [(b, m_bc, m_ab)]
    and [(c, m_ca, m_bc)] at the places [3k], [3k + 1] and [3k + 2] of the
    output, and the output has no other element (no centre triangle): its
    length is three times that of the input.  For vertices with finite
    coordinates, and in exact arithmetic, [m_ab], [m_bc] and [m_ca] are the
    midpoints of the edges [(a, b)], [(b, c)] and [(c, a)], normalised and
    scaled to the distance [|a|] of the first vertex from the origin.  Hence
    after [d >= 1] rounds [n] triangles have become [n * 3 ^ d]. *)
Theorem subdivider_emits_three_children (tris : list Triangle) (d : Z) :
  (1 <= d)%Z ->
  (forall k tri, tris !! k = Some tri ->
     subdivideOnce tris !! (3 * k)%nat
       = Some (mkTriangle (ta tri) (m12 tri) (m31 tri)) /\
     subdivideOnce tris !! (3 * k + 1)%nat
       = Some (mkTriangle (tb tri) (m23 tri) (m12 tri)) /\
     subdivideOnce tris !! (3 * k + 2)%nat
       = Some (mkTriangle (tc tri) (m31 tri) (m23 tri))) /\
  (forall k (a b c : point),
     tris !! k = Some (mkTriangle (ofPoint a) (ofPoint b) (ofPoint c)) ->
     let m_ab := midpointOnSphere (norm a) a b in
     let m_bc := midpointOnSphere (norm a) b c in
     let m_ca := midpointOnSphere (norm a) c a in
     subdivideOnce tris !! (3 * k)%nat
       = Some (mkTriangle (ofPoint a) (ofPoint m_ab) (ofPoint m_ca)) /\
     subdivideOnce tris !! (3 * k + 1)%nat
       = Some (mkTriangle (ofPoint b) (ofPoint m_bc) (ofPoint m_ab)) /\
     subdivideOnce tris !! (3 * k + 2)%nat
       = Some (mkTriangle (ofPoint c) (ofPoint m_ca) (ofPoint m_bc))) /\
  length (subdivideOnce tris) = (3 * length tris)%nat /\
  subdivide tris d = subdivide (subdivideOnce tris) (d - 1) /\
  Z.of_nat (length (subdivide tris d)) = (Z.of_nat (length tris) * 3 ^ d)%Z.
Proof.
  intros Hd.
  assert (Hplaces : forall k tri, tris !! k = Some tri ->
     subdivideOnce tris !! (3 * k)%nat
       = Some (mkTriangle (ta tri) (m12 tri) (m31 tri)) /\
     subdivideOnce tris !! (3 * k + 1)%nat
       = Some (mkTriangle (tb tri) (m23 tri) (m12 tri)) /\
     subdivideOnce tris !! (3 * k + 2)%nat
       = Some (mkTriangle (tc tri) (m31 tri) (m23 tri))).
  { intros k tri Hk. unfold subdivideOnce. split; [|split].
    - rewrite <- (Nat.add_0_r (3 * k)).
      rewrite (lookup_flat_map_fixed subdivideTriangle 3) with (a := tri); auto.
    - rewrite (lookup_flat_map_fixed subdivideTriangle 3) with (a := tri); auto.
    - rewrite (lookup_flat_map_fixed subdivideTriangle 3) with (a := tri); auto. }
  split; [exact Hplaces|]. split; [|split; [|split]].
  - intros k a b c Hk m_ab m_bc m_ca.
    destruct (Hplaces k _ Hk) as (H0 & H1 & H2).
    unfold m12, m23, m31 in H0, H1, H2. cbn [ta tb tc] in H0, H1, H2.
    rewrite length_ofPoint, !projectedMidpoint_ofPoint in H0, H1, H2.
    split; [exact H0|]. split; [exact H1 | exact H2].
  - apply length_subdivideOnce.
  - unfold subdivide.
    replace (Z.to_nat d) with (S (Z.to_nat (d - 1))) by lia.
    reflexivity.
  - unfold subdivide. rewrite length_subdivideRounds.
    rewrite Nat2Z.inj_mul, Nat2Z.inj_pow, Z2Nat.id by lia.
    reflexivity.
Qed.

Lemma subdivider_emits_three_children_witness :
  (1 <= 2)%Z /\
  subdivideOnce [octantTriangle] !! 0%nat
  = Some (mkTriangle (ofPoint (1, 0, 0)%R)
            (ofPoint (midpointOnSphere (norm (1, 0, 0)%R) (1, 0, 0)%R (0, 1, 0)%R))
            (ofPoint (midpointOnSphere (norm (1, 0, 0)%R) (0, 0, 1)%R (1, 0, 0)%R))) /\
  Z.of_nat (length (subdivide [octantTriangle] 2)) = (Z.of_nat 1 * 3 ^ 2)%Z.
Proof.
  assert (Hd : (1 <= 2)%Z) by lia.
  split; [exact Hd|].
  destruct (subdivider_emits_three_children [octantTriangle] 2 Hd)
    as (_ & Hmid & _ & _ & Hlen).
  split; [|exact Hlen].
  exact (proj1 (Hmid 0%nat (1, 0, 0)%R (0, 1, 0)%R (0, 0, 1)%R eq_refl)).
Defined.


(** ** C2: the projected midpoints *)

(** C2, as stated, fails where an edge joins two antipodal points: its
    midpoint is the origin, [normalize] leaves the origin where it is, and
    the projected midpoint has length [0], not the length [1] of the first
    vertex. *)
Lemma antipodal_midpoint_off_sphere :
  Vec.length (m12 antipodalTriangle) = Fin 0 /\
  Vec.length (ta antipodalTriangle) = Fin 1 /\
  Vec.length (m12 antipodalTriangle) <> Vec.length (ta antipodalTriangle).
Proof.
  assert (H1 : Vec.length (ta antipodalTriangle) = Fin 1).
  { unfold antipodalTriangle, vec; cbn [ta]. rewrite length_Fin.
    replace (1 * 1 + 0 * 0 + 0 * 0)%R with 1%R by lra.
    rewrite sqrt_1. reflexivity. }
  assert (H0 : Vec.length (m12 antipodalTriangle) = Fin 0).
  { unfold m12. rewrite H1. unfold antipodalTriangle, vec; cbn [ta tb tc].
    apply length_projectedMidpoint_origin; lra. }
  repeat split; [exact H0 | exact H1 |].
  rewrite H0, H1. intros H. injection H. lra.
Qed.

(** C2, amended.  In exact arithmetic, for a triangle [(a, b, c)] with
    finite coordinates, every projected edge midpoint that comes from a
    midpoint other than the origin lies at the distance [|a|] of the first
    vertex from the origin. *)
Theorem projected_midpoints_on_sphere (tri : Triangle) :
  Vec.finite (ta tri) -> Vec.finite (tb tri) -> Vec.finite (tc tri) ->
  (Vec.addVectors (ta tri) (tb tri) <> zeroVector ->
     Vec.length (m12 tri) = Vec.length (ta tri)) /\
  (Vec.addVectors (tb tri) (tc tri) <> zeroVector ->
     Vec.length (m23 tri) = Vec.length (ta tri)) /\
  (Vec.addVectors (tc tri) (ta tri) <> zeroVector ->
     Vec.length (m31 tri) = Vec.length (ta tri)).
Proof.
  destruct tri as [[ax ay az] [bx by' bz] [cx cy cz]]; cbn [ta tb tc].
  unfold Vec.finite; cbn [vx vy vz].
  intros (Hax & Hay & Haz) (Hbx & Hby & Hbz) (Hcx & Hcy & Hcz).
  destruct ax as [|ax], ay as [|ay], az as [|az]; try contradiction.
  destruct bx as [|bx], by' as [|by'], bz as [|bz]; try contradiction.
  destruct cx as [|cx], cy as [|cy], cz as [|cz]; try contradiction.
  unfold m12, m23, m31; cbn [ta tb tc].
  rewrite length_Fin.
  repeat split; intros Hne; apply length_projectedMidpoint_Fin;
    try apply sqrt_pos;
    intros (E1 & E2 & E3); apply Hne;
    rewrite addVectors_Fin, E1, E2, E3; reflexivity.
Qed.

Lemma projected_midpoints_on_sphere_witness :
  Vec.length (m12 octantTriangle) = Vec.length (ta octantTriangle) /\
  Vec.length (m23 octantTriangle) = Vec.length (ta octantTriangle) /\
  Vec.length (m31 octantTriangle) = Vec.length (ta octantTriangle).
Proof.
  assert (Hf : forall x y z, Vec.finite (vec x y z)) by (intros; repeat split).
  destruct (projected_midpoints_on_sphere octantTriangle (Hf _ _ _) (Hf _ _ _) (Hf _ _ _))
    as (H12 & H23 & H31).
  assert (Hne : forall x y z : R, (x + y + z = 2)%R -> vec x y z <> zeroVector).
  { intros x y z Hs E. unfold zeroVector, vec in E. injection E. intros. lra. }
  repeat split; [apply H12 | apply H23 | apply H31];
    unfold octantTriangle, vec; cbn [ta tb tc]; rewrite addVectors_Fin;
    apply Hne; lra.
Defined.

(** ** C8: depth 0 *)

(** C8.  For a base geometry that has a position attribute, the generator
    called with depth [0] decomposes it into triangles and returns the base
    geometry itself: same attributes, same index, nothing subdivided, welded
    or recomputed, whatever the welding and the normal computation are. *)
Theorem depth_zero_returns_base `{ThreeLib} (B : BufferGeometry) :
  is_Some (attributes B !! "position") ->
  is_Some (initialTriangles B) /\ createNeogenesisFractal B 0 = Some B.
Proof.
  intros [pos Hpos].
  assert (Hi : is_Some (initialTriangles B)).
  { unfold initialTriangles. rewrite Hpos. destruct (index B); eauto. }
  split; [exact Hi|].
  destruct Hi as [tris Htris]. unfold createNeogenesisFractal.
  rewrite Htris. reflexivity.
Qed.

Lemma depth_zero_returns_base_witness :
  is_Some (attributes oneTriangleGeometry !! "position") /\
  @createNeogenesisFractal sampleThree oneTriangleGeometry 0 = Some oneTriangleGeometry.
Proof.
  assert (Hpos : is_Some (attributes oneTriangleGeometry !! "position")).
  { eexists. reflexivity. }
  split; [exact Hpos|].
  exact (proj2 (@depth_zero_returns_base sampleThree oneTriangleGeometry Hpos)).
Defined.

(** ** C5: the two bands *)

Section Bands.
#[local] Open Scope R_scope.

Lemma foldl_Zadd (band : list Z) (z : Z) :
  IZR (foldl Z.add z band) = IZR z + foldr (fun v acc => IZR v + acc) 0 band.
Proof.
  revert z. induction band as [|v band IH]; intros z; simpl.
  - lra.
  - rewrite IH, plus_IZR. lra.
Qed.

Lemma slice_lookups (frame : list Z) (first last : nat) :
  (last <= length frame)%nat ->
  slice frame first last
  = (fun i => default 0%Z (frame !! i)) <$> seq first (last - first).
Proof.
  intros Hlast. apply list_eq. intros j. unfold slice.
  rewrite list_lookup_fmap.
  destruct (decide (j < last - first)%nat) as [Hj|Hj].
  - rewrite lookup_take_lt, lookup_drop by lia.
    rewrite lookup_seq_lt by lia. simpl.
    destruct (lookup_lt_is_Some_2 frame (first + j)) as [v Hv]; [lia|].
    rewrite Hv. reflexivity.
  - rewrite lookup_take_ge by lia.
    rewrite lookup_seq_ge by lia. reflexivity.
Qed.

Lemma length_slice (frame : list Z) (first last : nat) :
  (last <= length frame)%nat -> length (slice frame first last) = (last - first)%nat.
Proof. intros H. rewrite slice_lookups, length_fmap, length_seq by lia. reflexivity. Qed.

Lemma bandAverage_nil : bandAverage [] = NaN.
Proof.
  unfold bandAverage, Num.of_Z, Num.of_nat. cbn.
  destruct (Req_dec_T (0 * 255) 0) as [|Hne]; [reflexivity|].
  exfalso. apply Hne. lra.
Qed.

(** The average that the code computes over a slice that is not empty is
    the mean of the normalised magnitudes over its range of bins. *)
Lemma bandAverage_slice (frame : list Z) (first last : nat) :
  (first < last <= length frame)%nat ->
  bandAverage (slice frame first last) = Fin (meanOver frame first last).
Proof.
  intros [Hlt Hle]. unfold bandAverage, Num.of_Z, Num.of_nat.
  rewrite length_slice by lia. cbn [Num.mul Num.lift2].
  assert (Hpos : 0 < INR (last - first)) by (apply lt_0_INR; lia).
  rewrite div_Fin by nra.
  f_equal. unfold meanOver.
  rewrite foldl_Zadd, slice_lookups by lia.
  generalize (seq first (last - first)) as l.
  generalize dependent (INR (last - first)).
  intros k Hk l.
  assert (Hsum : foldr (fun v acc => IZR v + acc) 0
                   ((fun i => default 0%Z (frame !! i)) <$> l)
                 = 255 * foldr (fun i acc => IZR (default 0%Z (frame !! i)) / 255 + acc) 0 l).
  { induction l as [|i l IH]; [simpl; lra|].
    rewrite fmap_cons. cbn [foldr]. rewrite IH. field. }
  rewrite Hsum. field. lra.
Qed.

Lemma meanOver_replicate (n first last : nat) (v : Z) :
  (first < last <= n)%nat ->
  meanOver (replicate n v) first last = IZR v / 255.
Proof.
  intros [Hlt Hle]. unfold meanOver.
  assert (Hpos : 0 < INR (last - first)) by (apply lt_0_INR; lia).
  assert (Hsum : forall len start, (start + len <= n)%nat ->
             foldr (fun i acc => IZR (default 0%Z (replicate n v !! i)) / 255 + acc) 0
                   (seq start len) = INR len * (IZR v / 255)).
  { induction len as [|len IH]; intros start Hs.
    - simpl. lra.
    - rewrite S_INR. cbn [seq foldr]. rewrite IH by lia.
      rewrite (lookup_replicate_2 n v start) by lia. simpl. lra. }
  rewrite Hsum by lia. field. lra.
Qed.

End Bands.

(** C5, as stated, fails for a frame of fewer than ten bins: its bottom
    tenth is the empty slice, whose average is [0 / 0].  On the all-zero
    frame of five bins the bass is not a number. *)
Lemma sampleBands_five_silent_bins :
  sampleBands 5 (replicate 5 0%Z) = (NaN, Fin 0) /\
  sampleBands 5 (replicate 5 0%Z) <> (Fin 0, Fin 0).
Proof.
  assert (H : sampleBands 5 (replicate 5 0%Z) = (NaN, Fin 0)).
  { unfold sampleBands. f_equal.
    - apply bandAverage_nil.
    - change (4 * 5 / 10)%nat with 2%nat. change (8 * 5 / 10)%nat with 4%nat.
      rewrite bandAverage_slice by (rewrite length_replicate; lia).
      rewrite meanOver_replicate by lia. f_equal. lra. }
  split; [exact H|]. rewrite H. discriminate.
Qed.

(** C5, amended.  For a frame of [n >= 10] bins, [sampleBands] returns for
    bass the mean of the normalised magnitudes over the bins
    [0 <= i < floor (n / 10)] and for treble their mean over the bins
    [floor (4 n / 10) <= i < floor (8 n / 10)]; on the all-zero frame it
    returns [(0, 0)] and on the all-255 frame [(1, 1)]. *)
Theorem sampleBands_means (n : nat) (frame : list Z) :
  length frame = n -> (10 <= n)%nat ->
  sampleBands n frame
  = (Fin (meanOver frame 0 (n / 10)), Fin (meanOver frame (4 * n / 10) (8 * n / 10))) /\
  sampleBands n (replicate n 0%Z) = (Fin 0, Fin 0) /\
  sampleBands n (replicate n 255%Z) = (Fin 1, Fin 1).
Proof.
  intros Hlen Hn.
  assert (Hb : (0 < n / 10 <= n)%nat) by (split; [apply Nat.div_str_pos | apply Nat.Div0.div_le_upper_bound]; lia).
  assert (Ht : (4 * n / 10 < 8 * n / 10 <= n)%nat).
  { pose proof (Nat.div_mod_eq (4 * n) 10). pose proof (Nat.div_mod_eq (8 * n) 10).
    pose proof (Nat.mod_upper_bound (4 * n) 10). pose proof (Nat.mod_upper_bound (8 * n) 10).
    lia. }
  assert (Hgen : forall fr, length fr = n ->
            sampleBands n fr
            = (Fin (meanOver fr 0 (n / 10)), Fin (meanOver fr (4 * n / 10) (8 * n / 10)))).
  { intros fr Hfr. unfold sampleBands.
    rewrite !bandAverage_slice by (rewrite Hfr; lia). reflexivity. }
  split; [apply Hgen; exact Hlen|].
  split; rewrite Hgen by apply length_replicate;
    rewrite !meanOver_replicate by lia; repeat f_equal; lra.
Qed.

Lemma sampleBands_means_witness :
  length (replicate 16 255%Z) = 16%nat /\ (10 <= 16)%nat /\
  sampleBands 16 (replicate 16 255%Z) = (Fin 1, Fin 1).
Proof.
  assert (Hlen : length (replicate 16 255%Z) = 16%nat) by reflexivity.
  assert (Hn : (10 <= 16)%nat) by lia.
  split; [exact Hlen|]. split; [exact Hn|].
  exact (proj2 (proj2 (sampleBands_means 16 (replicate 16 255%Z) Hlen Hn))).
Defined.

(** ** The loop over the vertices *)

Lemma lookup_setXYZ_other (attr : BufferAttribute) (i j : nat) (p : Vector3) :
  itemSize attr = 3%nat ->
  (j < 3 * i \/ 3 * i + 3 <= j)%nat ->
  array (setXYZ attr i p) !! j = array attr !! j.
Proof.
  intros Hs Hj. unfold setXYZ; cbn [array]. rewrite Hs.
  rewrite !list_lookup_insert_ne by lia. reflexivity.
Qed.

Lemma lookup_setXYZ_coordinate (attr : BufferAttribute) (i k : nat) (p : Vector3) (c : num) :
  itemSize attr = 3%nat -> (k < 3)%nat ->
  array attr !! (3 * i + k)%nat = Some c ->
  array (setXYZ attr i p) !! (3 * i + k)%nat = vectorCoordinates p !! k.
Proof.
  intros Hs Hk Hc. apply lookup_lt_Some in Hc.
  unfold setXYZ; cbn [array]. rewrite Hs.
  replace (3 * i + k)%nat with (i * 3 + k)%nat in * by lia.
  destruct k as [|[|[|k]]]; [| | |lia]; cbn [vectorCoordinates lookup list_lookup].
  - rewrite Nat.add_0_r in *.
    rewrite !list_lookup_insert_ne by lia.
    apply list_lookup_insert_eq. lia.
  - rewrite list_lookup_insert_ne by lia.
    apply list_lookup_insert_eq. rewrite length_insert. lia.
  - apply list_lookup_insert_eq. rewrite !length_insert. lia.
Qed.

Lemma length_setXYZ (attr : BufferAttribute) (i : nat) (p : Vector3) :
  length (array (setXYZ attr i p)) = length (array attr).
Proof. unfold setXYZ; cbn [array]. rewrite !length_insert. reflexivity. Qed.

(** The read [freqData[i % binCount] / 255.0] of the loop is the normalised
    magnitude of the bin [i mod frameLength]. *)
Lemma freqValueAt_normalizedBin (frame : list Z) (i : nat) :
  freqValueAt frame (i mod length frame) = normalizedBin frame i.
Proof.
  unfold freqValueAt, normalizedBin.
  destruct (frame !! (i mod length frame)%nat) as [v|]; [|reflexivity].
  unfold Num.of_Z. apply div_Fin. lra.
Qed.

Section Displacement.

Variables (freqData : list Z) (currentProps : NeogenesisProps)
          (smoothedBass : num) (originalPositions : list num)
          (normals posAttr : BufferAttribute).
Hypothesis normals3 : itemSize normals = 3%nat.
Hypothesis posAttr3 : itemSize posAttr = 3%nat.

#[local] Abbreviation moved i k current :=
  (deformedCoordinate freqData (fractalWaveAmplitude currentProps) smoothedBass
     (fractalWaveSmoothing currentProps) i
     (rd originalPositions (3 * i + k)) (rd (array normals) (3 * i + k)) current).

#[local] Abbreviation after n :=
  (foldl (displaceVertex freqData currentProps smoothedBass originalPositions normals)
         posAttr (seq 0 n)).

Lemma displaceVertex_coordinate (attr : BufferAttribute) (i k : nat) (c : num) :
  itemSize attr = 3%nat -> (k < 3)%nat ->
  array attr !! (3 * i + k)%nat = Some c ->
  array (displaceVertex freqData currentProps smoothedBass originalPositions
           normals attr i) !! (3 * i + k)%nat
  = Some (moved i k c).
Proof.
  intros Hs Hk Hc. unfold displaceVertex.
  rewrite (lookup_setXYZ_coordinate _ _ _ _ c Hs Hk Hc).
  rewrite freqValueAt_normalizedBin.
  unfold deformedCoordinate, Vec.lerp, fromBufferAttribute, getX, getY, getZ.
  rewrite Hs, normals3.
  assert (Hrd : rd (array attr) (3 * i + k) = c) by (unfold rd; rewrite Hc; reflexivity).
  destruct k as [|[|[|k]]]; [| | |lia];
    cbn [vectorCoordinates lookup list_lookup vx vy vz];
    replace (i * 3)%nat with (3 * i + 0)%nat by lia;
    rewrite <- ?Nat.add_assoc; cbn [Nat.add];
    rewrite Hrd; reflexivity.
Qed.

Lemma after_spec (n : nat) :
  itemSize (after n) = 3%nat /\
  length (array (after n)) = length (array posAttr) /\
  forall i k, (k < 3)%nat ->
    array (after n) !! (3 * i + k)%nat
    = if decide (i < n)%nat
      then (fun c => moved i k c) <$> array posAttr !! (3 * i + k)%nat
      else array posAttr !! (3 * i + k)%nat.
Proof.
  induction n as [|n (IHs & IHl & IH)].
  - split; [exact posAttr3|]. split; [reflexivity|].
    intros i k Hk. destruct (decide (i < 0)%nat); [lia | reflexivity].
  - rewrite seq_S, foldl_app. cbn [foldl Nat.add].
    set (prev := foldl _ posAttr (seq 0 n)) in *.
    repeat split.
    + exact IHs.
    + unfold displaceVertex. rewrite length_setXYZ. exact IHl.
    + intros i k Hk. destruct (decide (i = n)) as [->|Hne].
      * specialize (IH n k Hk). destruct (decide (n < n)%nat); [lia|].
        destruct (decide (n < S n)%nat); [|lia].
        destruct (array posAttr !! (3 * n + k)%nat) as [c|] eqn:Hc.
        -- rewrite (displaceVertex_coordinate prev n k c IHs Hk IH). reflexivity.
        -- apply lookup_ge_None. unfold displaceVertex. rewrite length_setXYZ.
           apply lookup_ge_None in IH. exact IH.
      * unfold displaceVertex. rewrite lookup_setXYZ_other by (auto; lia).
        rewrite (IH i k Hk).
        destruct (decide (i < n)%nat), (decide (i < S n)%nat); try lia; reflexivity.
Qed.

(** After the loop, each coordinate of each vertex is the value that the
    formula gives from its value before the loop. *)
Lemma displaceVertices_spec :
  itemSize (displaceVertices freqData currentProps smoothedBass originalPositions
              normals posAttr) = 3%nat /\
  length (array (displaceVertices freqData currentProps smoothedBass
                   originalPositions normals posAttr))
  = length (array posAttr) /\
  forall i k c, (k < 3)%nat ->
    array posAttr !! (3 * i + k)%nat = Some c ->
    array (displaceVertices freqData currentProps smoothedBass originalPositions
             normals posAttr) !! (3 * i + k)%nat
    = Some (moved i k c).
Proof.
  destruct (after_spec (count posAttr)) as (Hs & Hl & H).
  repeat split; [exact Hs | exact Hl |].
  intros i k c Hk Hc. unfold displaceVertices.
  rewrite (H i k Hk), Hc.
  destruct (decide (i < count posAttr)%nat) as [|Hge]; [reflexivity|].
  exfalso. apply lookup_lt_Some in Hc. apply Hge.
  unfold count, ceilDiv. rewrite posAttr3.
  pose proof (Nat.div_mod_eq (length (array posAttr) + 3 - 1) 3).
  pose proof (Nat.mod_upper_bound (length (array posAttr) + 3 - 1) 3).
  lia.
Qed.

End Displacement.

(** ** C3, C4, C6: one tick on the fractal geometry *)

Lemma processAudio_reactive (currentProps : NeogenesisProps) (analyser : list Z)
    (a : AudioProcessor) :
  isAudioReactive currentProps = true ->
  processAudio currentProps analyser (Some a)
  = (Some (updateFrequencyData analyser a),
     Some (frequencyData (updateFrequencyData analyser a)),
     (sampleBands (frequencyBinCount (updateFrequencyData analyser a))
                  (frequencyData (updateFrequencyData analyser a))).1,
     (sampleBands (frequencyBinCount (updateFrequencyData analyser a))
                  (frequencyData (updateFrequencyData analyser a))).2).
Proof. intros Hr. unfold processAudio. rewrite Hr. reflexivity. Qed.

(** The frame of the tick is absent exactly when there is no audio
    processor or the props switch audio reactivity off. *)
Lemma processAudio_no_frame (currentProps : NeogenesisProps) (analyser : list Z)
    (audio : option AudioProcessor) :
  audio = None \/ isAudioReactive currentProps = false ->
  processAudio currentProps analyser audio = (audio, None, Fin 0, Fin 0).
Proof.
  intros [-> | Hr]; [reflexivity|].
  unfold processAudio. rewrite Hr. destruct audio; reflexivity.
Qed.






(** C4.  On the tick where the wireframe flag is false and was true at the
    previous tick, the position buffer becomes the buffer of resting
    positions, entry for entry; nothing else of the geometry changes. *)
Theorem leaving_wireframe_restores_positions (currentProps : NeogenesisProps)
    (analyser : list Z) (st : Scene) (group : FractalGroup)
    (orig : list num) (posAttr : BufferAttribute) :
  fractalWireframe currentProps = false ->
  lastWireframeState st = true ->
  fractalGroup st = Some group ->
  children group <> [] ->
  originalFractalPositions st = Some orig ->
  attributes (geometry group) !! "position" = Some posAttr ->
  length orig = length (array posAttr) ->
  exists st' group',
    animate currentProps analyser st = Some st' /\
    fractalGroup st' = Some group' /\
    geometry group'
    = setAttribute "position" (mkAttr orig (itemSize posAttr)) (geometry group) /\
    (array <$> attributes (geometry group') !! "position") = Some orig /\
    lastWireframeState st' = false.
Proof.
  intros Hwire Hlast Hgroup Hchildren Horig Hpos Hlen.
  unfold animate.
  destruct (processAudio currentProps analyser (audioProcessor st))
    as [[[audio' freqData] bassAvg] trebleAvg].
  rewrite Hgroup.
  destruct (children group) as [|mesh meshes] eqn:Hc; [contradiction|].
  unfold updateFractalGeometry, typedArraySet.
  rewrite Hwire, Hlast, Horig, Hpos, Hlen, Nat.leb_refl.
  rewrite drop_all, app_nil_r.
  eexists _, _. split; [reflexivity|].
  cbn [fractalGroup geometry lastWireframeState].
  split; [reflexivity|]. split; [reflexivity|]. split; [|reflexivity].
  unfold setAttribute; cbn [geometry attributes].
  rewrite lookup_insert_eq. reflexivity.
Qed.





Lemma leaving_wireframe_restores_positions_witness :
  fractalWireframe (sampleProps false) = false /\
  exists st' group',
    animate (sampleProps false) (replicate 16 255%Z)
            (sampleScene (Some sampleAudio) (Some (replicate 9 (Fin 1))) true)
    = Some st' /\
    fractalGroup st' = Some group' /\
    (array <$> attributes (geometry group') !! "position") = Some (replicate 9 (Fin 1)).
Proof.
  split; [reflexivity|].
  destruct (leaving_wireframe_restores_positions (sampleProps false) (replicate 16 255%Z)
              (sampleScene (Some sampleAudio) (Some (replicate 9 (Fin 1))) true)
              sampleGroup (replicate 9 (Fin 1))
              (mkAttr (triangleCoordinates octantTriangle) 3))
    as (st' & group' & Hrun & Hgroup & _ & Hpos & _);
    try reflexivity; try discriminate.
  exists st', group'. auto.
Defined.


(** ** C7: the regeneration of the particle field *)

Section Particles.
#[local] Open Scope R_scope.





Lemma length_particlePositions (n : nat) (radius : num) (random : nat -> R) :
  length (particlePositions n radius random) = (3 * n)%nat.
Proof.
  unfold particlePositions.
  rewrite (length_flat_map_fixed _ 3) by reflexivity.
  rewrite length_seq. reflexivity.
Qed.


End Particles.

Lemma lookup_copyAttribute (name key : string) (old geo : BufferGeometry) :
  attributes (copyAttribute name old geo) !! key
  = if decide (name = key) then attributes old !! name else attributes geo !! key.
Proof.
  unfold copyAttribute, getAttribute.
  destruct (attributes old !! name) as [attr|] eqn:Hold; cbn [attributes setAttribute].
  - rewrite lookup_insert. reflexivity.
  - rewrite lookup_delete. reflexivity.
Qed.

Lemma lookup_createParticleGeometry (n : nat) (radius : num) (random : nat -> R) (key : string) :
  attributes (createParticleGeometry n radius random) !! key
  = if decide (key = "position" \/ key = "initialPosition")
    then Some (mkAttr (particlePositions n radius random) 3)
    else None.
Proof.
  unfold createParticleGeometry, setAttribute, emptyGeometry; cbn [attributes].
  rewrite !lookup_insert, lookup_empty.
  destruct (decide ("initialPosition" = key)) as [Hi|Hi];
    destruct (decide ("position" = key)) as [Hp|Hp];
    destruct (decide (key = "position" \/ key = "initialPosition")) as [Hd|Hd];
    try reflexivity; exfalso;
    first [ congruence | apply Hd; auto | destruct Hd; congruence ].
Qed.


(** What regeneration leaves alone and what it replaces. *)

Lemma regenerated_attributes (radius : num) (random : nat -> R) (st : Scene)
    (oldGeo : BufferGeometry) :
  particleSystem st = Some oldGeo ->
  exists newGeo,
    particleSystem (regenerateParticles radius random st) = Some newGeo /\
    attributes newGeo !! "color" = attributes oldGeo !! "color" /\
    attributes newGeo !! "size" = attributes oldGeo !! "size" /\
    attributes newGeo !! "random" = attributes oldGeo !! "random" /\
    attributes newGeo !! "position"
    = Some (mkAttr (particlePositions PARTICLE_COUNT radius random) 3) /\
    attributes newGeo !! "initialPosition"
    = Some (mkAttr (particlePositions PARTICLE_COUNT radius random) 3).
Proof.
  intros Hold. unfold regenerateParticles. rewrite Hold.
  eexists. split; [reflexivity|].
  rewrite !lookup_copyAttribute, !lookup_createParticleGeometry.
  repeat split; reflexivity.
Qed.




(** ** C10: the normal attribute *)

Lemma length_displaceVertices (freqData : list Z) (currentProps : NeogenesisProps)
    (smoothedBass : num) (orig : list num) (normals posAttr : BufferAttribute) :
  itemSize (displaceVertices freqData currentProps smoothedBass orig normals posAttr)
  = itemSize posAttr /\
  length (array (displaceVertices freqData currentProps smoothedBass orig normals posAttr))
  = length (array posAttr).
Proof.
  unfold displaceVertices. generalize (seq 0 (count posAttr)) as l.
  intros l. revert posAttr. induction l as [|i l IH]; intros posAttr; [auto|].
  cbn [foldl]. destruct (IH (displaceVertex freqData currentProps smoothedBass orig
                               normals posAttr i)) as [-> ->].
  unfold displaceVertex. rewrite length_setXYZ. auto.
Qed.

(** The tick writes the position attribute and nothing else of the
    geometry. *)
Lemma updateFractalGeometry_writes_position_only (currentProps : NeogenesisProps)
    (audio : option AudioProcessor) (freqData : option (list Z)) (smoothedBass : num)
    (originalPositions : option (list num)) (lastWireframe : bool)
    (geo geo' : BufferGeometry) :
  updateFractalGeometry currentProps audio freqData smoothedBass originalPositions
    lastWireframe geo = Some geo' ->
  index geo' = index geo /\
  forall key, key <> "position" -> attributes geo' !! key = attributes geo !! key.
Proof.
  unfold updateFractalGeometry. intros Hu.
  assert (Hset : forall attr, geo' = setAttribute "position" attr geo ->
            index geo' = index geo /\
            forall key, key <> "position" -> attributes geo' !! key = attributes geo !! key).
  { intros attr ->. split; [reflexivity|]. intros key Hkey.
    unfold setAttribute; cbn [attributes]. apply lookup_insert_ne. congruence. }
  repeat match type of Hu with
         | context [match ?x with _ => _ end] => destruct x
         end;
    try discriminate; injection Hu as <-; eauto.
Qed.

Lemma animate_preserves_normals (currentProps : NeogenesisProps) (analyser : list Z)
    (st st' : Scene) :
  animate currentProps analyser st = Some st' -> normalsOf st' = normalsOf st.
Proof.
  unfold animate, normalsOf.
  destruct (processAudio currentProps analyser (audioProcessor st))
    as [[[audio' freqData] bassAvg] trebleAvg].
  destruct (fractalGroup st) as [group|]; [|intros [= <-]; reflexivity].
  destruct (children group) as [|mesh meshes]; [discriminate|].
  destruct (updateFractalGeometry _ _ _ _ _ _ _) as [geo'|] eqn:Hu; [|discriminate].
  intros [= <-]. cbn [fractalGroup geometry].
  apply (updateFractalGeometry_writes_position_only _ _ _ _ _ _ _ _ Hu). discriminate.
Qed.

(** A tick on a well-formed scene does not throw, and leaves the scene
    well-formed. *)
Lemma animate_wellFormed (currentProps : NeogenesisProps) (analyser : list Z) (st : Scene) :
  wellFormed st ->
  exists st', animate currentProps analyser st = Some st' /\ wellFormed st'.
Proof.
  intros (group & posAttr & orig & Hgroup & Hchildren & Hpos & Horig & Hlen).
  unfold animate.
  destruct (processAudio currentProps analyser (audioProcessor st))
    as [[[audio' freqData] bassAvg] trebleAvg].
  rewrite Hgroup. destruct (children group) as [|mesh meshes] eqn:Hc; [contradiction|].
  set (smoothedBass := Num.lerp _ _ _).
  assert (Hu : exists posAttr',
             updateFractalGeometry currentProps audio' freqData smoothedBass
               (originalFractalPositions st) (lastWireframeState st) (geometry group)
             = Some (setAttribute "position" posAttr' (geometry group)) /\
             length (array posAttr') = length (array posAttr)).
  { unfold updateFractalGeometry, typedArraySet. rewrite Horig, Hpos, Hlen, Nat.leb_refl.
    assert (Hsame : Some (geometry group)
                    = Some (setAttribute "position" posAttr (geometry group))).
    { f_equal. destruct (geometry group) as [attrs idx].
      unfold setAttribute; cbn [attributes index] in *.
      rewrite insert_id by exact Hpos. reflexivity. }
    destruct (fractalWireframe currentProps).
    - destruct audio', freqData, (attributes (geometry group) !! "normal");
        try (exists posAttr; rewrite Hsame; auto).
      eexists. split; [reflexivity|].
      apply length_displaceVertices.
    - destruct (lastWireframeState st).
      + eexists. split; [reflexivity|]. cbn [array].
        rewrite drop_all, app_nil_r. exact Hlen.
      + exists posAttr. rewrite Hsame. auto. }
  destruct Hu as (posAttr' & -> & Hlen').
  eexists. split; [reflexivity|].
  eexists _, posAttr', orig. cbn [fractalGroup children geometry originalFractalPositions].
  split; [reflexivity|]. split; [discriminate|].
  split; [apply lookup_insert_eq|].
  split; [exact Horig | lia].
Qed.

Lemma regenerateParticles_fractal (radius : num) (random : nat -> R) (st : Scene) :
  fractalGroup (regenerateParticles radius random st) = fractalGroup st /\
  originalFractalPositions (regenerateParticles radius random st)
  = originalFractalPositions st.
Proof. unfold regenerateParticles. destruct (particleSystem st); auto. Qed.

Section Runs.

Context `{ThreeLib}.

Lemma run_without_rebuild (events : list Event) (st : Scene) :
  Forall keepsGeometry events -> wellFormed st ->
  exists st', run events st = Some st' /\ wellFormed st' /\
              normalsOf st' = normalsOf st.
Proof.
  intros Hkeep. revert st. induction Hkeep as [|e events He _ IH]; intros st Hwf.
  - exists st. auto.
  - destruct e as [currentProps analyser | depth | radius random]; [| contradiction |].
    + destruct (animate_wellFormed currentProps analyser st Hwf) as (st1 & Hrun & Hwf1).
      destruct (IH st1 Hwf1) as (st' & Hrest & Hwf' & Hnormals).
      exists st'. cbn [run step]. rewrite Hrun.
      split; [exact Hrest|]. split; [exact Hwf'|].
      rewrite Hnormals. apply (animate_preserves_normals _ _ _ _ Hrun).
    + destruct (regenerateParticles_fractal radius random st) as [Hg Ho].
      destruct (IH (regenerateParticles radius random st)) as (st' & Hrest & Hwf' & Hnormals).
      { destruct Hwf as (group & posAttr & orig & Hwf).
        exists group, posAttr, orig. rewrite Hg, Ho. exact Hwf. }
      exists st'. cbn [run step].
      split; [exact Hrest|]. split; [exact Hwf'|].
      rewrite Hnormals. unfold normalsOf. rewrite Hg. reflexivity.
Qed.

Lemma step_builtAt (depth0 : Z) (e : Event) (st st' : Scene) :
  builtAt depth0 st -> wellFormed st -> step e st = Some st' ->
  builtAt (currentDepth depth0 [e]) st' /\ wellFormed st'.
Proof.
  intros Hbuilt Hwf Hstep.
  destruct e as [currentProps analyser | depth | radius random];
    cbn [step currentDepth foldl] in *.
  - destruct (animate_wellFormed currentProps analyser st Hwf) as (st1 & Hrun & Hwf1).
    rewrite Hrun in Hstep. injection Hstep as <-. split; [|exact Hwf1].
    pose proof (animate_preserves_normals _ _ _ _ Hrun) as Hn.
    destruct Hbuilt as (group & fresh & Hgroup & Hfresh & Hnormal).
    destruct Hwf1 as (group1 & posAttr1 & orig1 & Hgroup1 & Hrest1).
    exists group1, fresh. split; [exact Hgroup1|]. split; [exact Hfresh|].
    unfold normalsOf in Hn. rewrite Hgroup, Hgroup1 in Hn. congruence.
  - destruct Hwf as (group & posAttr & orig & Hgroup & Hchildren & _).
    unfold regenerateFractal in Hstep. rewrite Hgroup in Hstep.
    destruct (children group) as [|mesh meshes] eqn:Hc; [contradiction|].
    destruct (createNeogenesisFractal IcosahedronGeometry_4_1 depth) as [fresh|] eqn:Hfresh;
      [|discriminate].
    destruct (attributes fresh !! "position") as [freshPos|] eqn:Hpos; [|discriminate].
    injection Hstep as <-. split.
    + exists (mkGroup (visible group) (mesh :: meshes) fresh (material group)), fresh.
      auto.
    + exists (mkGroup (visible group) (mesh :: meshes) fresh (material group)),
             freshPos, (array freshPos).
      cbn [fractalGroup children geometry originalFractalPositions].
      split; [reflexivity|]. split; [discriminate|]. auto.
  - injection Hstep as <-.
    destruct (regenerateParticles_fractal radius random st) as [Hg Ho]. split.
    + destruct Hbuilt as (group & fresh & Hgroup & Hfresh & Hnormal).
      exists group, fresh. rewrite Hg. auto.
    + destruct Hwf as (group & posAttr & orig & Hwf).
      exists group, posAttr, orig. rewrite Hg, Ho. exact Hwf.
Qed.

Lemma run_builtAt (events : list Event) (depth0 : Z) (st st' : Scene) :
  builtAt depth0 st -> wellFormed st -> run events st = Some st' ->
  builtAt (currentDepth depth0 events) st'.
Proof.
  revert depth0 st. induction events as [|e events IH]; intros depth0 st Hbuilt Hwf Hrun.
  - injection Hrun as <-. exact Hbuilt.
  - cbn [run] in Hrun. destruct (step e st) as [st1|] eqn:Hstep; [|discriminate].
    destruct (step_builtAt depth0 e st st1 Hbuilt Hwf Hstep) as [Hbuilt1 Hwf1].
    apply (IH _ _ Hbuilt1 Hwf1 Hrun).
Qed.

End Runs.

(** C10.  From a scene that holds the normals computed when its geometry
    was built, no run of ticks and of regenerations of the particle field
    throws or changes the normal attribute; and after any run, with
    regenerations of the fractal in it, the normal attribute is the one that
    the generator has computed at the depth of the last build. *)
Theorem normals_fixed_between_builds `{ThreeLib} (depth0 : Z) (events : list Event)
    (st : Scene) :
  builtAt depth0 st -> wellFormed st ->
  (Forall keepsGeometry events ->
     exists st', run events st = Some st' /\ normalsOf st' = normalsOf st) /\
  (forall st', run events st = Some st' -> builtAt (currentDepth depth0 events) st').
Proof.
  intros Hbuilt Hwf. split.
  - intros Hkeep.
    destruct (run_without_rebuild events st Hkeep Hwf) as (st' & Hrun & _ & Hnormals).
    exists st'. auto.
  - intros st' Hrun. apply (run_builtAt events depth0 st st' Hbuilt Hwf Hrun).
Qed.

Lemma normals_fixed_between_builds_witness :
  exists st st',
    sampleBuiltScene = Some st /\
    @builtAt sampleThree 1 st /\ wellFormed st /\
    @run sampleThree
       [Tick (sampleProps true) (replicate 16 255%Z);
        RadiusChanged (Fin 20) (fun _ => (1 / 8)%R);
        Tick (sampleProps false) (replicate 16 0%Z)] st = Some st' /\
    normalsOf st' = normalsOf st /\ is_Some (normalsOf st).
Proof.
  assert (Hst : exists st, sampleBuiltScene = Some st /\ @builtAt sampleThree 1 st /\
                           wellFormed st /\ is_Some (normalsOf st)).
  { eexists. split; [reflexivity|]. split.
    - eexists _, _. split; [reflexivity|]. split; reflexivity.
    - split.
      + eexists _, _, _. split; [reflexivity|]. split; [discriminate|].
        split; [reflexivity|]. split; reflexivity.
      + eexists. reflexivity. }
  destruct Hst as (st & Hst & Hbuilt & Hwf & Hsome).
  destruct (@normals_fixed_between_builds sampleThree 1
              [Tick (sampleProps true) (replicate 16 255%Z);
               RadiusChanged (Fin 20) (fun _ => (1 / 8)%R);
               Tick (sampleProps false) (replicate 16 0%Z)] st Hbuilt Hwf)
    as [Hkeep _].
  destruct Hkeep as (st' & Hrun & Hnormals).
  { repeat constructor. }
  exists st, st'. auto 10.
Defined.

(** * Further properties of the modelled code *)

(** ** The generator: errors and edges *)

Lemma subdivideRounds_nil (rounds : nat) : subdivideRounds rounds [] = [].
Proof. induction rounds as [|k IH]; [reflexivity | exact IH]. Qed.

Lemma subdivideRounds_not_nil (rounds : nat) (tris : list Triangle) :
  tris <> [] -> subdivideRounds rounds tris <> [].
Proof.
  intros Hne Hnil. apply (f_equal length) in Hnil.
  rewrite length_subdivideRounds in Hnil. cbn [length] in Hnil.
  destruct tris as [|tri tris]; [congruence|]. cbn [length] in Hnil.
  assert (3 ^ rounds <> 0)%nat by (apply Nat.pow_nonzero; lia). nia.
Qed.

(** X1.  A base geometry without a position attribute makes the generator
    throw at every depth, depth 0 included, unless it has an index buffer
    of length 0. *)
Theorem generator_throws_without_positions `{ThreeLib} (B : BufferGeometry) (d : Z) :
  attributes B !! "position" = None ->
  index B <> Some [] ->
  createNeogenesisFractal B d = None.
Proof.
  intros Hpos Hidx. unfold createNeogenesisFractal, initialTriangles. rewrite Hpos.
  destruct (index B) as [[|i idx]|]; [congruence | reflexivity | reflexivity].
Qed.

Lemma generator_throws_without_positions_witness :
  attributes emptyGeometry !! "position" = None /\
  @createNeogenesisFractal sampleThree emptyGeometry 0 = None.
Proof.
  assert (Hpos : attributes emptyGeometry !! "position" = None) by reflexivity.
  split; [exact Hpos|].
  apply (@generator_throws_without_positions sampleThree emptyGeometry 0 Hpos).
  discriminate.
Defined.

(** X2.  A base geometry that decomposes into no triangle gives, at every
    depth other than 0, the empty geometry: no attribute and no index, and
    neither welding nor normals. *)
Theorem generator_of_no_triangle `{ThreeLib} (B : BufferGeometry) (d : Z) :
  initialTriangles B = Some [] -> d <> 0%Z ->
  createNeogenesisFractal B d = Some emptyGeometry /\
  attributes emptyGeometry !! "position" = None.
Proof.
  intros Htris Hd. unfold createNeogenesisFractal. rewrite Htris.
  destruct (Z.eqb_spec d 0) as [|_]; [contradiction|].
  unfold subdivide. rewrite subdivideRounds_nil. split; reflexivity.
Qed.

Lemma generator_of_no_triangle_witness :
  initialTriangles (mergeGeometries []) = Some [] /\ 3%Z <> 0%Z /\
  @createNeogenesisFractal sampleThree (mergeGeometries []) 3 = Some emptyGeometry.
Proof.
  assert (Ht : initialTriangles (mergeGeometries []) = Some []) by reflexivity.
  assert (Hd : 3%Z <> 0%Z) by discriminate.
  split; [exact Ht|]. split; [exact Hd|].
  exact (proj1 (@generator_of_no_triangle sampleThree (mergeGeometries []) 3 Ht Hd)).
Defined.

(** X3.  At a depth other than 0, a base geometry of [n >= 1] triangles is
    subdivided, collected into one flat position buffer of
    [9 * n * 3 ^ depth] numbers, welded, and given normals, in that order; a
    negative depth subdivides nothing and still welds. *)
Theorem generator_pipeline `{ThreeLib} (B : BufferGeometry) (tris : list Triangle) (d : Z) :
  initialTriangles B = Some tris -> tris <> [] -> d <> 0%Z ->
  createNeogenesisFractal B d
  = Some (computeVertexNormals (mergeVertices (mergeGeometries (subdivide tris d)))) /\
  attributes (mergeGeometries (subdivide tris d)) !! "position"
  = Some (mkAttr (flat_map triangleCoordinates (subdivide tris d)) 3) /\
  index (mergeGeometries (subdivide tris d)) = None /\
  length (flat_map triangleCoordinates (subdivide tris d))
  = (9 * (length tris * 3 ^ Z.to_nat d))%nat /\
  ((d < 0)%Z -> subdivide tris d = tris).
Proof.
  intros Htris Hne Hd. unfold createNeogenesisFractal. rewrite Htris.
  destruct (Z.eqb_spec d 0) as [|_]; [contradiction|].
  split.
  - pose proof (subdivideRounds_not_nil (Z.to_nat d) tris Hne) as Hsub.
    unfold subdivide. destruct (subdivideRounds (Z.to_nat d) tris); [contradiction | reflexivity].
  - split; [apply lookup_insert_eq|]. split; [reflexivity|]. split.
    + rewrite (length_flat_map_fixed triangleCoordinates 9) by reflexivity.
      unfold subdivide. rewrite length_subdivideRounds. reflexivity.
    + intros Hneg. unfold subdivide.
      replace (Z.to_nat d) with 0%nat by lia. reflexivity.
Qed.

Lemma generator_pipeline_witness :
  initialTriangles oneTriangleGeometry = Some [octantTriangle] /\
  length (flat_map triangleCoordinates (subdivide [octantTriangle] 2)) = 81%nat.
Proof.
  assert (Ht : initialTriangles oneTriangleGeometry = Some [octantTriangle]) by reflexivity.
  assert (Hne : [octantTriangle] <> []) by discriminate.
  assert (Hd : 2%Z <> 0%Z) by discriminate.
  split; [exact Ht|].
  exact (proj1 (proj2 (proj2 (proj2
    (@generator_pipeline sampleThree oneTriangleGeometry [octantTriangle] 2 Ht Hne Hd))))).
Defined.

(** ** The generator: what subdivision keeps *)

Lemma finite_vector (v : Vector3) :
  Vec.finite v -> exists x y z, v = mkVector3 (Fin x) (Fin y) (Fin z).
Proof.
  destruct v as [[|x] [|y] [|z]]; unfold Vec.finite; cbn [vx vy vz];
    intros (Hx & Hy & Hz); try contradiction. eauto.
Qed.

Lemma length_of_finite (v : Vector3) :
  Vec.finite v -> exists r, (0 <= r)%R /\ Vec.length v = Fin r.
Proof.
  intros Hv. destruct (finite_vector v Hv) as (x & y & z & ->).
  rewrite length_Fin. eexists. split; [apply sqrt_pos | reflexivity].
Qed.

Lemma projectedMidpoint_onSphere (rho : R) (p q : Vector3) :
  (0 <= rho)%R -> Vec.finite p -> Vec.finite q ->
  onSphereOrOrigin rho (projectedMidpoint (Fin rho) p q).
Proof.
  intros Hrho Hp Hq.
  destruct (finite_vector p Hp) as (px & py & pz & ->).
  destruct (finite_vector q Hq) as (qx & qy & qz & ->).
  split.
  - unfold projectedMidpoint, Vec.normalize, Vec.divideScalar.
    rewrite addVectors_Fin, multiplyScalar_Fin, length_Fin.
    match goal with |- context [Fin (sqrt ?s)] => set (L := sqrt s) end.
    destruct (Req_dec L 0) as [-> | HL].
    + rewrite or_else_zero, div_Fin by lra. rewrite !multiplyScalar_Fin.
      repeat split.
    + rewrite or_else_Fin, div_Fin by exact HL. rewrite !multiplyScalar_Fin.
      repeat split.
  - destruct (Req_dec (px + qx) 0) as [Ex|Ex];
      [destruct (Req_dec (py + qy) 0) as [Ey|Ey];
       [destruct (Req_dec (pz + qz) 0) as [Ez|Ez]|]|].
    + right. apply length_projectedMidpoint_origin; assumption.
    + left. apply length_projectedMidpoint_Fin; [exact Hrho | tauto].
    + left. apply length_projectedMidpoint_Fin; [exact Hrho | tauto].
    + left. apply length_projectedMidpoint_Fin; [exact Hrho | tauto].
Qed.

Lemma subdivideTriangle_onSphere (r : R) (tri : Triangle) :
  Forall (onSphereOrOrigin r) (triangleVertices tri) ->
  Forall (fun t => Forall (onSphereOrOrigin r) (triangleVertices t))
         (subdivideTriangle tri).
Proof.
  unfold triangleVertices. intros Hv.
  apply Forall_cons in Hv as [Ha Hv]. apply Forall_cons in Hv as [Hb Hv].
  apply Forall_cons in Hv as [Hc _].
  assert (Hm : forall p q, Vec.finite p -> Vec.finite q ->
             onSphereOrOrigin r (projectedMidpoint (Vec.length (ta tri)) p q)).
  { intros p q Hp Hq. destruct Ha as [Hfa [Hr | H0]].
    - destruct (length_of_finite _ Hfa) as (r' & Hr' & Hlen).
      assert (r' = r) by congruence. subst r'.
      rewrite Hr. apply projectedMidpoint_onSphere; assumption.
    - rewrite H0.
      destruct (projectedMidpoint_onSphere 0 p q (Rle_refl 0) Hp Hq) as [Hf Hl].
      split; [exact Hf|]. right. destruct Hl; assumption. }
  pose proof (Hm _ _ (proj1 Ha) (proj1 Hb)) as H12.
  pose proof (Hm _ _ (proj1 Hb) (proj1 Hc)) as H23.
  pose proof (Hm _ _ (proj1 Hc) (proj1 Ha)) as H31.
  unfold subdivideTriangle, triangleVertices, m12, m23, m31. cbn [ta tb tc].
  repeat first [apply Forall_cons_2 | apply Forall_nil_2]; assumption.
Qed.

Lemma subdivideOnce_Forall (P : Triangle -> Prop) (tris : list Triangle) :
  (forall tri, P tri -> Forall P (subdivideTriangle tri)) ->
  Forall P tris -> Forall P (subdivideOnce tris).
Proof.
  intros Hstep Htris. unfold subdivideOnce.
  induction Htris as [|tri tris Htri _ IH]; [apply Forall_nil_2|].
  cbn [flat_map]. apply Forall_app_2; [apply Hstep; exact Htri | exact IH].
Qed.

Lemma subdivideRounds_Forall (P : Triangle -> Prop) (rounds : nat) (tris : list Triangle) :
  (forall tri, P tri -> Forall P (subdivideTriangle tri)) ->
  Forall P tris -> Forall P (subdivideRounds rounds tris).
Proof.
  intros Hstep. revert tris. induction rounds as [|k IH]; intros tris Htris; [exact Htris|].
  cbn [subdivideRounds]. apply IH. apply subdivideOnce_Forall; assumption.
Qed.

(** X5.  In exact arithmetic, if every vertex of the input lies on the
    sphere of radius [r] about the origin or at the origin, so does every
    vertex of the output, at every depth: subdivision never leaves the
    sphere of the base solid, but for midpoints that collapse to the
    origin. *)
Theorem subdivision_stays_on_sphere (r : R) (tris : list Triangle) (d : Z) :
  Forall (fun tri => Forall (onSphereOrOrigin r) (triangleVertices tri)) tris ->
  Forall (fun tri => Forall (onSphereOrOrigin r) (triangleVertices tri))
         (subdivide tris d).
Proof.
  unfold subdivide. apply subdivideRounds_Forall. apply subdivideTriangle_onSphere.
Qed.

Lemma subdivision_stays_on_sphere_witness :
  Forall (fun tri => Forall (onSphereOrOrigin 1) (triangleVertices tri))
         (subdivide [octantTriangle] 2).
Proof.
  apply subdivision_stays_on_sphere.
  assert (Hv : forall x y z : R, (x * x + y * y + z * z = 1)%R ->
                 onSphereOrOrigin 1 (vec x y z)).
  { intros x y z Hs. split; [repeat split|]. left. unfold vec.
    rewrite length_Fin, Hs, sqrt_1. reflexivity. }
  repeat first [apply Forall_cons_2 | apply Forall_nil_2]; apply Hv; lra.
Defined.

(** X6.  Subdivision keeps the vertices of its input where they are: every
    vertex of an input triangle is a vertex of some output triangle, at
    every depth. *)
Theorem subdivision_keeps_input_vertices (tris : list Triangle) (tri : Triangle)
    (v : Vector3) (d : Z) :
  In tri tris -> In v (triangleVertices tri) ->
  exists tri', In tri' (subdivide tris d) /\ In v (triangleVertices tri').
Proof.
  unfold subdivide. generalize (Z.to_nat d) as rounds. intros rounds.
  revert tris tri. induction rounds as [|k IH]; intros tris tri Htri Hv.
  - exists tri. auto.
  - cbn [subdivideRounds].
    assert (Hchild : exists child, In child (subdivideOnce tris) /\ ta child = v).
    { assert (Hsub : forall child, In child (subdivideTriangle tri) ->
                         In child (subdivideOnce tris)).
      { intros child Hc. unfold subdivideOnce. apply in_flat_map. exists tri. auto. }
      destruct Hv as [<- | [<- | [<- | []]]].
      - exists (mkTriangle (ta tri) (m12 tri) (m31 tri)).
        split; [apply Hsub; left; reflexivity | reflexivity].
      - exists (mkTriangle (tb tri) (m23 tri) (m12 tri)).
        split; [apply Hsub; right; left; reflexivity | reflexivity].
      - exists (mkTriangle (tc tri) (m31 tri) (m23 tri)).
        split; [apply Hsub; right; right; left; reflexivity | reflexivity]. }
    destruct Hchild as (child & Hin & <-).
    apply (IH _ child Hin). left. reflexivity.
Qed.

Lemma subdivision_keeps_input_vertices_witness :
  In octantTriangle [octantTriangle] /\
  exists tri', In tri' (subdivide [octantTriangle] 4) /\
               In (vec 0 0 1) (triangleVertices tri').
Proof.
  assert (Hin : In octantTriangle [octantTriangle]) by (left; reflexivity).
  split; [exact Hin|].
  apply (subdivision_keeps_input_vertices [octantTriangle] octantTriangle (vec 0 0 1) 4 Hin).
  right. right. left. reflexivity.
Defined.

(** ** The generator: decomposition and collection *)

Lemma ceilDiv_multiple (n d : nat) : (0 < d)%nat -> ceilDiv (d * n) d = n.
Proof.
  intros Hd. unfold ceilDiv.
  replace (d * n + d - 1)%nat with (n * d + (d - 1))%nat by lia.
  rewrite Nat.div_add_l by lia. rewrite Nat.div_small by lia. lia.
Qed.

(** X7.  Decomposition and collection are inverse on flat geometries: a
    geometry without index whose position buffer holds [9 n] numbers in
    items of 3 decomposes into [n] triangles, and the flat buffer collected
    from these triangles is that position buffer again. *)
Theorem decomposition_then_collection (B : BufferGeometry) (pos : BufferAttribute) (n : nat) :
  index B = None ->
  attributes B !! "position" = Some pos ->
  itemSize pos = 3%nat ->
  length (array pos) = (9 * n)%nat ->
  exists tris,
    initialTriangles B = Some tris /\
    length tris = n /\
    attributes (mergeGeometries tris) !! "position" = Some pos.
Proof.
  intros Hidx Hpos Hsize Hlen.
  exists (map (flatTriangle pos) (seq 0 n)).
  assert (Hcount : ceilDiv (count pos) 3 = n).
  { unfold count. rewrite Hsize, Hlen.
    replace (9 * n)%nat with (3 * (3 * n))%nat by lia.
    rewrite !ceilDiv_multiple by lia. reflexivity. }
  split; [unfold initialTriangles; rewrite Hidx, Hpos, Hcount; reflexivity|].
  split; [rewrite length_map, length_seq; reflexivity|].
  unfold mergeGeometries, setAttribute; cbn [attributes].
  rewrite lookup_insert_eq. f_equal.
  destruct pos as [arr size]; cbn [array itemSize] in *. subst size. f_equal.
  apply list_eq. intros j.
  destruct (decide (j < 9 * n)%nat) as [Hj|Hj].
  - assert (Hi : (j / 9 < n)%nat) by (apply Nat.Div0.div_lt_upper_bound; lia).
    pose proof (Nat.div_mod_eq j 9) as Hdm.
    pose proof (Nat.mod_upper_bound j 9) as Hk.
    set (i := (j / 9)%nat) in *. set (k := (j mod 9)%nat) in *.
    rewrite Hdm.
    rewrite (lookup_flat_map_fixed triangleCoordinates 9)
      with (a := flatTriangle (mkAttr arr 3) i); [| reflexivity | | lia].
    2:{ rewrite list_lookup_fmap, lookup_seq_lt by exact Hi. reflexivity. }
    destruct (lookup_lt_is_Some_2 arr (9 * i + k)) as [c Hc]; [lia|].
    rewrite Hc.
    assert (Hrd : rd arr (9 * i + k) = c) by (unfold rd; rewrite Hc; reflexivity).
    unfold flatTriangle, fromBufferAttribute, getX, getY, getZ, triangleCoordinates;
      cbn [array itemSize ta tb tc vx vy vz].
    do 9 (destruct k as [|k];
          [cbn [lookup list_lookup]; f_equal; rewrite <- Hrd; f_equal; lia|]).
    lia.
  - rewrite !lookup_ge_None_2; [reflexivity | lia |].
    rewrite (length_flat_map_fixed triangleCoordinates 9) by reflexivity.
    rewrite length_map, length_seq. lia.
Qed.

Lemma decomposition_then_collection_witness :
  index oneTriangleGeometry = None /\
  exists tris,
    initialTriangles oneTriangleGeometry = Some tris /\ length tris = 1%nat.
Proof.
  split; [reflexivity|].
  destruct (decomposition_then_collection oneTriangleGeometry
              (mkAttr (triangleCoordinates octantTriangle) 3) 1)
    as (tris & Htris & Hlen & _); try reflexivity.
  exists tris. auto.
Defined.

(** ** The audio processor and the two bands *)

(** X8.  The frame buffer is allocated once: the constructor makes it as
    long as the analyser has bins, and neither connecting a source nor
    updating the frame, whatever bytes the analyser delivers, changes its
    length, the bin count or the range of its elements. *)
Theorem frame_buffer_keeps_its_size (fftSize : nat) (analyser : list Z) (a : AudioProcessor) :
  audioSized (newAudioProcessor fftSize) /\
  frequencyBinCount (newAudioProcessor fftSize) = (fftSize / 2)%nat /\
  (audioSized a -> audioSized (connect a)) /\
  (audioSized a -> Forall isByte analyser ->
     audioSized (updateFrequencyData analyser a) /\
     isInitialized (updateFrequencyData analyser a) = isInitialized a).
Proof.
  split; [|split; [reflexivity|split]].
  - split; [apply length_replicate|]. apply Forall_replicate. unfold isByte. lia.
  - intros Ha. exact Ha.
  - intros [Hlen Hbytes] Han. unfold updateFrequencyData, getByteFrequencyData.
    destruct (isInitialized a); (split; [split|reflexivity]); cbn [frequencyData frequencyBinCount].
    + rewrite length_take, length_app, length_drop. lia.
    + apply Forall_take. apply Forall_app_2; [exact Han | apply Forall_drop; exact Hbytes].
    + rewrite length_replicate. exact Hlen.
    + apply Forall_replicate. unfold isByte. lia.
Qed.

Section BandBounds.
#[local] Open Scope R_scope.

Lemma meanOver_unit (frame : list Z) (first last : nat) :
  Forall isByte frame -> (first < last <= length frame)%nat ->
  0 <= meanOver frame first last <= 1.
Proof.
  intros Hbytes [Hlt Hle]. unfold meanOver.
  assert (Hpos : 0 < INR (last - first)) by (apply lt_0_INR; lia).
  assert (Hsum : forall len start, (start + len <= length frame)%nat ->
            0 <= foldr (fun i acc => IZR (default 0%Z (frame !! i)) / 255 + acc) 0
                       (seq start len) <= INR len).
  { induction len as [|len IH]; intros start Hs.
    - simpl. lra.
    - rewrite S_INR. cbn [seq foldr]. specialize (IH (S start) ltac:(lia)).
      destruct (lookup_lt_is_Some_2 frame start) as [v Hv]; [lia|].
      rewrite Hv. change (default 0%Z (Some v)) with v.
      assert (Hb : isByte v) by (eapply Forall_lookup_1; eauto).
      destruct Hb as [Hb0 Hb1]. apply IZR_le in Hb0, Hb1. lra. }
  specialize (Hsum (last - first)%nat first ltac:(lia)).
  split.
  - apply Rmult_le_pos; [lra | left; apply Rinv_0_lt_compat; exact Hpos].
  - apply Rmult_le_reg_r with (INR (last - first)); [exact Hpos|].
    unfold Rdiv. rewrite Rmult_assoc, Rinv_l by lra. lra.
Qed.

End BandBounds.

(** X9.  For a frame of [n >= 10] bytes, bass and treble are numbers of
    [0, 1]. *)
Theorem sampleBands_in_unit_interval (n : nat) (frame : list Z) :
  length frame = n -> (10 <= n)%nat -> Forall isByte frame ->
  exists bass treble,
    sampleBands n frame = (Fin bass, Fin treble) /\
    (0 <= bass <= 1)%R /\ (0 <= treble <= 1)%R.
Proof.
  intros Hlen Hn Hbytes.
  assert (Ht : (4 * n / 10 < 8 * n / 10 <= n)%nat).
  { pose proof (Nat.div_mod_eq (4 * n) 10). pose proof (Nat.div_mod_eq (8 * n) 10).
    pose proof (Nat.mod_upper_bound (4 * n) 10). pose proof (Nat.mod_upper_bound (8 * n) 10).
    lia. }
  assert (Hb : (0 < n / 10 <= n)%nat).
  { pose proof (Nat.div_mod_eq n 10). pose proof (Nat.mod_upper_bound n 10). lia. }
  exists (meanOver frame 0 (n / 10)), (meanOver frame (4 * n / 10) (8 * n / 10)).
  split.
  - unfold sampleBands. rewrite !bandAverage_slice by (rewrite Hlen; lia). reflexivity.
  - split; apply meanOver_unit; try exact Hbytes; rewrite Hlen; lia.
Qed.

Lemma sampleBands_in_unit_interval_witness :
  length [3; 200; 255; 0; 17; 90; 255; 1; 64; 128; 7; 250]%Z = 12%nat /\
  exists bass treble,
    sampleBands 12 [3; 200; 255; 0; 17; 90; 255; 1; 64; 128; 7; 250]%Z
    = (Fin bass, Fin treble) /\ (0 <= bass <= 1)%R.
Proof.
  split; [reflexivity|].
  destruct (sampleBands_in_unit_interval 12 [3; 200; 255; 0; 17; 90; 255; 1; 64; 128; 7; 250]%Z)
    as (bass & treble & Hs & Hb & _); [reflexivity | lia | |].
  { repeat first [apply Forall_cons_2 | apply Forall_nil_2]; unfold isByte; lia. }
  exists bass, treble. auto.
Defined.

(** X10.  While no source is connected, the tick reads silence: for a
    processor that is not initialised and has one byte for each of its
    [n >= 10] bins, an audio-reactive tick gets the all-zero frame and bass
    and treble 0, whatever the analyser holds. *)
Theorem unconnected_processor_is_silent (currentProps : NeogenesisProps)
    (analyser : list Z) (a : AudioProcessor) :
  isAudioReactive currentProps = true ->
  isInitialized a = false ->
  length (frequencyData a) = frequencyBinCount a ->
  (10 <= frequencyBinCount a)%nat ->
  processAudio currentProps analyser (Some a)
  = (Some (mkAudio false (replicate (frequencyBinCount a) 0%Z) (frequencyBinCount a)),
     Some (replicate (frequencyBinCount a) 0%Z), Fin 0, Fin 0).
Proof.
  intros Hr Hi Hlen Hn. set (n := frequencyBinCount a) in *.
  assert (Ht : (4 * n / 10 < 8 * n / 10 <= n)%nat).
  { pose proof (Nat.div_mod_eq (4 * n) 10). pose proof (Nat.div_mod_eq (8 * n) 10).
    pose proof (Nat.mod_upper_bound (4 * n) 10). pose proof (Nat.mod_upper_bound (8 * n) 10).
    lia. }
  assert (Hb : (0 < n / 10 <= n)%nat).
  { pose proof (Nat.div_mod_eq n 10). pose proof (Nat.mod_upper_bound n 10). lia. }
  rewrite processAudio_reactive by exact Hr.
  unfold updateFrequencyData. rewrite Hi, Hlen. fold n.
  cbn [frequencyData frequencyBinCount]. unfold sampleBands. cbn [fst snd].
  rewrite !bandAverage_slice by (rewrite length_replicate; lia).
  rewrite !meanOver_replicate by lia.
  replace (0 / 255)%R with 0%R by lra. reflexivity.
Qed.

Lemma unconnected_processor_is_silent_witness :
  isInitialized (newAudioProcessor 32) = false /\
  (10 <= frequencyBinCount (newAudioProcessor 32))%nat /\
  processAudio (sampleProps true) (replicate 16 255%Z) (Some (newAudioProcessor 32))
  = (Some (newAudioProcessor 32), Some (replicate 16 0%Z), Fin 0, Fin 0).
Proof.
  assert (Hn : (10 <= frequencyBinCount (newAudioProcessor 32))%nat).
  { change (frequencyBinCount (newAudioProcessor 32)) with 16%nat. lia. }
  split; [reflexivity|]. split; [exact Hn|].
  exact (unconnected_processor_is_silent (sampleProps true) (replicate 16 255%Z)
           (newAudioProcessor 32) eq_refl eq_refl eq_refl Hn).
Defined.

(** ** The tick: what it leaves alone *)

Lemma updateFractalGeometry_position_shape (currentProps : NeogenesisProps)
    (audio : option AudioProcessor) (freqData : option (list Z)) (smoothedBass : num)
    (originalPositions : option (list num)) (lastWireframe : bool)
    (geo geo' : BufferGeometry) (p : BufferAttribute) :
  updateFractalGeometry currentProps audio freqData smoothedBass originalPositions
    lastWireframe geo = Some geo' ->
  attributes geo !! "position" = Some p ->
  exists p', attributes geo' !! "position" = Some p' /\
             itemSize p' = itemSize p /\ length (array p') = length (array p).
Proof.
  unfold updateFractalGeometry, typedArraySet. intros Hu Hp. rewrite Hp in Hu.
  assert (Hsame : exists p', attributes geo !! "position" = Some p' /\
                    itemSize p' = itemSize p /\ length (array p') = length (array p))
    by (exists p; auto).
  assert (Hset : forall p', itemSize p' = itemSize p -> length (array p') = length (array p) ->
            exists p'', attributes (setAttribute "position" p' geo) !! "position" = Some p'' /\
                        itemSize p'' = itemSize p /\ length (array p'') = length (array p)).
  { intros p' Hs Hl. exists p'. split; [apply lookup_insert_eq | auto]. }
  destruct (fractalWireframe currentProps).
  - destruct audio, freqData, originalPositions, (attributes geo !! "normal");
      injection Hu as <-; try exact Hsame.
    apply Hset; apply length_displaceVertices.
  - destruct lastWireframe; [|injection Hu as <-; exact Hsame].
    destruct originalPositions as [orig|]; [|injection Hu as <-; exact Hsame].
    destruct (Nat.leb_spec (length orig) (length (array p))) as [Hle|]; [|discriminate].
    injection Hu as <-. apply Hset; [reflexivity|]. cbn [array].
    rewrite length_app, length_drop. lia.
Qed.

(** X11.  A tick that does not throw leaves the snapshot of the resting
    positions, the particle geometry and the number of layers as they are;
    of the fractal geometry it can change the contents of the position
    buffer and nothing else: not the index, not another attribute, not the
    length or the item size of the position buffer. *)
Theorem tick_changes_position_contents_only (currentProps : NeogenesisProps)
    (analyser : list Z) (st st' : Scene) (group : FractalGroup) :
  animate currentProps analyser st = Some st' ->
  fractalGroup st = Some group ->
  originalFractalPositions st' = originalFractalPositions st /\
  particleSystem st' = particleSystem st /\
  lastWireframeState st' = fractalWireframe currentProps /\
  exists group',
    fractalGroup st' = Some group' /\
    length (children group') = length (children group) /\
    index (geometry group') = index (geometry group) /\
    (forall key, key <> "position" ->
       attributes (geometry group') !! key = attributes (geometry group) !! key) /\
    (forall p, attributes (geometry group) !! "position" = Some p ->
       exists p', attributes (geometry group') !! "position" = Some p' /\
                  itemSize p' = itemSize p /\ length (array p') = length (array p)).
Proof.
  unfold animate. intros Hrun Hgroup.
  destruct (processAudio currentProps analyser (audioProcessor st))
    as [[[audio' freqData] bassAvg] trebleAvg].
  rewrite Hgroup in Hrun.
  destruct (children group) as [|mesh meshes] eqn:Hc; [discriminate|].
  destruct (updateFractalGeometry _ _ _ _ _ _ _) as [geo'|] eqn:Hu; [|discriminate].
  injection Hrun as <-. cbn [originalFractalPositions particleSystem lastWireframeState fractalGroup].
  split; [reflexivity|]. split; [reflexivity|]. split; [reflexivity|].
  eexists. split; [reflexivity|]. cbn [children geometry].
  split; [cbn [length]; rewrite length_imap; reflexivity|].
  destruct (updateFractalGeometry_writes_position_only _ _ _ _ _ _ _ _ Hu) as [Hi Hk].
  split; [exact Hi|]. split; [exact Hk|].
  intros p Hp. apply (updateFractalGeometry_position_shape _ _ _ _ _ _ _ _ _ Hu Hp).
Qed.

Lemma tick_changes_position_contents_only_witness :
  exists st',
    animate (sampleProps true) (replicate 16 255%Z)
            (sampleScene (Some sampleAudio) (Some (triangleCoordinates octantTriangle)) false)
    = Some st' /\
    originalFractalPositions st' = Some (triangleCoordinates octantTriangle).
Proof.
  destruct (animate_wellFormed (sampleProps true) (replicate 16 255%Z)
              (sampleScene (Some sampleAudio) (Some (triangleCoordinates octantTriangle)) false))
    as (st' & Hrun & _).
  { eexists _, _, _. split; [reflexivity|]. split; [discriminate|].
    split; [reflexivity|]. split; reflexivity. }
  exists st'. split; [exact Hrun|].
  exact (proj1 (tick_changes_position_contents_only _ _ _ st' sampleGroup Hrun eq_refl)).
Defined.

(** ** The tick: silence and the static mode *)

Section Relaxation.
#[local] Open Scope R_scope.

(** X12.  On a silent frame the displacement loop relaxes the mesh: every
    coordinate moves from its current value [c] towards its resting value
    [o] by the fraction [waveSmoothing], whatever the normals, the wave
    amplitude and the bass are (as long as they are numbers). *)
Theorem silent_frame_relaxes_towards_rest (n : nat) (currentProps : NeogenesisProps)
    (amplitude smoothedBass smoothing : R) (orig : list num)
    (normals posAttr : BufferAttribute) (i k : nat) (c o normal : R) :
  (0 < n)%nat ->
  fractalWaveAmplitude currentProps = Fin amplitude ->
  fractalWaveSmoothing currentProps = Fin smoothing ->
  itemSize normals = 3%nat -> itemSize posAttr = 3%nat ->
  (k < 3)%nat ->
  array posAttr !! (3 * i + k)%nat = Some (Fin c) ->
  rd orig (3 * i + k) = Fin o ->
  rd (array normals) (3 * i + k) = Fin normal ->
  array (displaceVertices (replicate n 0%Z) currentProps (Fin smoothedBass) orig
           normals posAttr) !! (3 * i + k)%nat
  = Some (Fin (c + (o - c) * smoothing)).
Proof.
  intros Hn Hamp Hsmooth Hn3 Hp3 Hk Hc Ho Hnormal.
  destruct (displaceVertices_spec (replicate n 0%Z) currentProps (Fin smoothedBass)
              orig normals posAttr Hn3 Hp3) as (_ & _ & Hmoved).
  rewrite (Hmoved i k (Fin c) Hk Hc). f_equal.
  unfold deformedCoordinate, normalizedBin.
  rewrite length_replicate, lookup_replicate_2 by (apply Nat.mod_upper_bound; lia).
  rewrite Hamp, Hsmooth, Ho, Hnormal.
  cbn [Num.mul Num.add Num.sub Num.lift2].
  f_equal. field.
Qed.

End Relaxation.

Lemma silent_frame_relaxes_towards_rest_witness :
  array (displaceVertices (replicate 16 0%Z) (sampleProps true) (Fin 0)
           (replicate 9 (Fin 2)) (mkAttr (triangleCoordinates octantTriangle) 3)
           (mkAttr (triangleCoordinates octantTriangle) 3)) !! 4%nat
  = Some (Fin (1 + (2 - 1) * (1 / 10))).
Proof.
  apply (silent_frame_relaxes_towards_rest 16 (sampleProps true) (25 / 100) 0 (1 / 10)
           (replicate 9 (Fin 2)) (mkAttr (triangleCoordinates octantTriangle) 3)
           (mkAttr (triangleCoordinates octantTriangle) 3) 1 1 1 2 1);
    try reflexivity; lia.
Defined.

(** A tick in Static mode does not throw on a well-formed scene; it
    restores the resting positions if the previous tick was in Deforming
    mode and leaves the geometry alone otherwise. *)
Lemma animate_static (currentProps : NeogenesisProps) (analyser : list Z) (st : Scene)
    (orig : list num) :
  fractalWireframe currentProps = false ->
  wellFormed st ->
  originalFractalPositions st = Some orig ->
  exists st',
    animate currentProps analyser st = Some st' /\
    wellFormed st' /\
    originalFractalPositions st' = Some orig /\
    lastWireframeState st' = false /\
    positionsOf st' = (if lastWireframeState st then Some orig else positionsOf st).
Proof.
  intros Hwire (group & posAttr & orig' & Hgroup & Hchildren & Hpos & Horig & Hlen) Ho.
  assert (orig' = orig) by congruence. subst orig'.
  unfold animate, positionsOf.
  destruct (processAudio currentProps analyser (audioProcessor st))
    as [[[audio' freqData] bassAvg] trebleAvg].
  rewrite Hgroup. destruct (children group) as [|mesh meshes] eqn:Hc; [contradiction|].
  unfold updateFractalGeometry, typedArraySet. rewrite Hwire, Horig, Hpos.
  destruct (lastWireframeState st).
  - rewrite Hlen, Nat.leb_refl, drop_all, app_nil_r.
    eexists. split; [reflexivity|].
    cbn [originalFractalPositions lastWireframeState fractalGroup geometry].
    split; [|split; [reflexivity|split; [reflexivity|]]].
    + eexists _, _, orig. cbn [fractalGroup children geometry originalFractalPositions].
      split; [reflexivity|]. split; [discriminate|].
      split; [apply lookup_insert_eq|]. split; reflexivity.
    + unfold setAttribute; cbn [attributes]. rewrite lookup_insert_eq. reflexivity.
  - eexists. split; [reflexivity|].
    cbn [originalFractalPositions lastWireframeState fractalGroup geometry].
    split; [|split; [reflexivity|split; [reflexivity|]]].
    + eexists _, posAttr, orig. cbn [fractalGroup children geometry originalFractalPositions].
      split; [reflexivity|]. split; [discriminate|]. auto.
    + rewrite ?Hpos. reflexivity.
Qed.

Section StaticRuns.

Context `{ThreeLib}.

Lemma run_static_ticks (frames : list (NeogenesisProps * list Z)) (st : Scene)
    (orig : list num) :
  Forall (fun frame => fractalWireframe frame.1 = false) frames ->
  wellFormed st ->
  originalFractalPositions st = Some orig ->
  lastWireframeState st = true \/ positionsOf st = Some orig ->
  frames <> [] ->
  exists st', run (ticks frames) st = Some st' /\
              positionsOf st' = Some orig /\ lastWireframeState st' = false /\
              originalFractalPositions st' = Some orig.
Proof.
  intros Hframes. revert st.
  induction Hframes as [|frame frames Hframe _ IH]; intros st Hwf Ho Hstart Hne;
    [contradiction|].
  destruct (animate_static frame.1 frame.2 st orig Hframe Hwf Ho)
    as (st1 & Hrun & Hwf1 & Ho1 & Hlast1 & Hpos1).
  assert (Hp1 : positionsOf st1 = Some orig).
  { rewrite Hpos1. destruct (lastWireframeState st) eqn:Elast; [reflexivity|].
    destruct Hstart as [Hs | Hp]; [discriminate | exact Hp]. }
  cbn [ticks map run step]. rewrite Hrun.
  destruct frames as [|frame' frames'].
  - exists st1. auto.
  - apply IH; auto; discriminate.
Qed.

End StaticRuns.

(** X13.  Leaving the Deforming mode is final: from a well-formed scene
    whose previous tick was in Deforming mode, any run of one or more
    ticks in Static mode does not throw and ends with the position buffer
    equal to the snapshot of the resting positions, whatever the audio
    does. *)
Theorem static_ticks_hold_resting_positions `{ThreeLib}
    (frames : list (NeogenesisProps * list Z)) (st : Scene) (orig : list num) :
  Forall (fun frame => fractalWireframe frame.1 = false) frames ->
  frames <> [] ->
  wellFormed st ->
  originalFractalPositions st = Some orig ->
  lastWireframeState st = true ->
  exists st', run (ticks frames) st = Some st' /\
              positionsOf st' = Some orig /\ lastWireframeState st' = false.
Proof.
  intros Hframes Hne Hwf Ho Hlast.
  destruct (run_static_ticks frames st orig Hframes Hwf Ho (or_introl Hlast) Hne)
    as (st' & Hrun & Hpos & Hl & _).
  exists st'. auto.
Qed.

Lemma static_ticks_hold_resting_positions_witness :
  exists st',
    @run sampleThree
      (ticks [(sampleProps false, replicate 16 255%Z); (sampleProps false, replicate 16 9%Z)])
      (sampleScene (Some sampleAudio) (Some (replicate 9 (Fin 1))) true) = Some st' /\
    positionsOf st' = Some (replicate 9 (Fin 1)).
Proof.
  destruct (@static_ticks_hold_resting_positions sampleThree
              [(sampleProps false, replicate 16 255%Z); (sampleProps false, replicate 16 9%Z)]
              (sampleScene (Some sampleAudio) (Some (replicate 9 (Fin 1))) true)
              (replicate 9 (Fin 1)))
    as (st' & Hrun & Hpos & _).
  - repeat first [apply Forall_cons_2 | apply Forall_nil_2]; reflexivity.
  - discriminate.
  - eexists _, _, _. split; [reflexivity|]. split; [discriminate|].
    split; [reflexivity|]. split; reflexivity.
  - reflexivity.
  - reflexivity.
  - exists st'. auto.
Defined.

(** ** The tick: the smoothed uniforms *)

Lemma animate_uniforms (currentProps : NeogenesisProps) (analyser : list Z)
    (st st' : Scene) (particles : BufferGeometry) :
  animate currentProps analyser st = Some st' ->
  particleSystem st = Some particles ->
  particleSystem st' = Some particles /\
  uBass st' = smoothedBassOf currentProps analyser st /\
  uTreble st'
  = Num.lerp (uTreble st)
      (Num.mul (processAudio currentProps analyser (audioProcessor st)).2
               (trebleSensitivity currentProps)) (Fin (1 / 10)%R).
Proof.
  unfold animate, smoothedBassOf. intros Hrun Hp.
  destruct (processAudio currentProps analyser (audioProcessor st))
    as [[[audio' freqData] bassAvg] trebleAvg].
  rewrite Hp in Hrun. cbn [fst snd] in *.
  destruct (fractalGroup st) as [group|].
  - destruct (children group); [discriminate|].
    destruct (updateFractalGeometry _ _ _ _ _ _ _); [|discriminate].
    injection Hrun as <-. auto.
  - injection Hrun as <-. auto.
Qed.

Section Decay.
#[local] Open Scope R_scope.

Lemma lerp_towards_zero (x s : R) :
  Num.lerp (Fin x) (Num.mul (Fin 0) (Fin s)) (Fin (1 / 10)) = Fin (9 / 10 * x).
Proof. unfold Num.lerp. cbn [Num.mul Num.add Num.sub Num.lift2]. f_equal. field. Qed.

Context `{ThreeLib}.

(** X14.  With audio reactivity switched off, the smoothed bass and treble
    that drive the shaders and the emissive intensity die away
    geometrically: from a well-formed scene, [n] ticks do not throw and
    leave nine tenths to the power [n] of each. *)
Theorem quiet_ticks_decay (frames : list (NeogenesisProps * list Z)) (st : Scene)
    (particles : BufferGeometry) (bass treble : R) :
  Forall (fun frame => isAudioReactive frame.1 = false /\
                       Num.finite (bassSensitivity frame.1) /\
                       Num.finite (trebleSensitivity frame.1)) frames ->
  wellFormed st ->
  particleSystem st = Some particles ->
  uBass st = Fin bass -> uTreble st = Fin treble ->
  exists st', run (ticks frames) st = Some st' /\
              uBass st' = Fin ((9 / 10) ^ length frames * bass) /\
              uTreble st' = Fin ((9 / 10) ^ length frames * treble).
Proof.
  intros Hframes. revert st bass treble.
  induction Hframes as [|frame frames (Hquiet & Hbs & Hts) _ IH];
    intros st bass treble Hwf Hp Hbass Htreble.
  - exists st. cbn [ticks map run length pow]. rewrite !Rmult_1_l. auto.
  - destruct (animate_wellFormed frame.1 frame.2 st Hwf) as (st1 & Hrun & Hwf1).
    destruct (animate_uniforms _ _ _ _ _ Hrun Hp) as (Hp1 & Hb1 & Ht1).
    unfold smoothedBassOf in Hb1.
    rewrite processAudio_no_frame in Hb1, Ht1 by (right; exact Hquiet).
    cbn [fst snd] in Hb1, Ht1.
    destruct (bassSensitivity frame.1) as [|bs]; [contradiction|].
    destruct (trebleSensitivity frame.1) as [|ts]; [contradiction|].
    rewrite Hbass, lerp_towards_zero in Hb1. rewrite Htreble, lerp_towards_zero in Ht1.
    destruct (IH st1 _ _ Hwf1 Hp1 Hb1 Ht1) as (st' & Hrest & Hb' & Ht').
    exists st'. cbn [ticks map run step length pow]. rewrite Hrun.
    split; [exact Hrest|]. rewrite Hb', Ht'. split; f_equal; ring.
Qed.

End Decay.

Lemma quiet_ticks_decay_witness :
  exists st',
    @run sampleThree (ticks [(quietProps, []); (quietProps, [])]) sampleLoudScene = Some st' /\
    uBass st' = Fin ((9 / 10) ^ 2 * 1)%R.
Proof.
  destruct (@quiet_ticks_decay sampleThree [(quietProps, []); (quietProps, [])]
              sampleLoudScene sampleOldParticles 1 1)
    as (st' & Hrun & Hbass & _).
  - repeat first [apply Forall_cons_2 | apply Forall_nil_2]; repeat split.
  - eexists _, _, _. split; [reflexivity|]. split; [discriminate|].
    split; [reflexivity|]. split; reflexivity.
  - reflexivity.
  - reflexivity.
  - reflexivity.
  - exists st'. auto.
Defined.

(** ** The particle field over a run *)

Lemma animate_particles (currentProps : NeogenesisProps) (analyser : list Z)
    (st st' : Scene) :
  animate currentProps analyser st = Some st' -> particleSystem st' = particleSystem st.
Proof.
  unfold animate. intros Hrun.
  destruct (processAudio currentProps analyser (audioProcessor st))
    as [[[audio' freqData] bassAvg] trebleAvg].
  destruct (fractalGroup st) as [group|].
  - destruct (children group); [discriminate|].
    destruct (updateFractalGeometry _ _ _ _ _ _ _); [|discriminate].
    injection Hrun as <-. reflexivity.
  - injection Hrun as <-. reflexivity.
Qed.

Lemma regenerateFractal_particles `{ThreeLib} (depth : Z) (st st' : Scene) :
  regenerateFractal depth st = Some st' -> particleSystem st' = particleSystem st.
Proof.
  unfold regenerateFractal. intros Hrun.
  destruct (fractalGroup st) as [group|]; [|injection Hrun as <-; reflexivity].
  destruct (children group); [injection Hrun as <-; reflexivity|].
  destruct (createNeogenesisFractal _ _) as [geo|]; [|discriminate].
  destruct (attributes geo !! "position"); [|discriminate].
  injection Hrun as <-. reflexivity.
Qed.

(** X15.  The colour, size and random attributes that the particles get at
    the mount are never changed afterwards: over any run of ticks, changes
    of depth and changes of radius that does not throw, the particle
    geometry at the end has these three attributes of the particle geometry
    at the start. *)
Theorem particle_attributes_survive_runs `{ThreeLib} (events : list Event)
    (st st' : Scene) (oldGeo : BufferGeometry) :
  run events st = Some st' ->
  particleSystem st = Some oldGeo ->
  exists newGeo,
    particleSystem st' = Some newGeo /\
    attributes newGeo !! "color" = attributes oldGeo !! "color" /\
    attributes newGeo !! "size" = attributes oldGeo !! "size" /\
    attributes newGeo !! "random" = attributes oldGeo !! "random".
Proof.
  revert st oldGeo. induction events as [|e events IH]; intros st oldGeo Hrun Hold.
  - injection Hrun as <-. exists oldGeo. auto.
  - cbn [run] in Hrun. destruct (step e st) as [st1|] eqn:Hstep; [|discriminate].
    assert (Hstep1 : exists geo1, particleSystem st1 = Some geo1 /\
               attributes geo1 !! "color" = attributes oldGeo !! "color" /\
               attributes geo1 !! "size" = attributes oldGeo !! "size" /\
               attributes geo1 !! "random" = attributes oldGeo !! "random").
    { destruct e as [currentProps analyser | depth | radius random]; cbn [step] in Hstep.
      - exists oldGeo. rewrite (animate_particles _ _ _ _ Hstep). auto.
      - exists oldGeo. rewrite (regenerateFractal_particles _ _ _ Hstep). auto.
      - injection Hstep as <-.
        destruct (regenerated_attributes radius random st oldGeo Hold)
          as (geo1 & Hg & Hc & Hs & Hr & _).
        exists geo1. auto. }
    destruct Hstep1 as (geo1 & Hg1 & Hc1 & Hs1 & Hr1).
    destruct (IH st1 geo1 Hrun Hg1) as (newGeo & Hn & Hc & Hs & Hr).
    exists newGeo. split; [exact Hn|]. rewrite Hc, Hs, Hr. auto.
Qed.

Lemma particle_attributes_survive_runs_witness :
  exists st' newGeo,
    @run sampleThree
      [RadiusChanged (Fin 20) (fun _ => (1 / 8)%R); Tick quietProps [];
       DepthChanged 1; RadiusChanged (Fin 5) (fun _ => (1 / 3)%R)]
      sampleLoudScene = Some st' /\
    particleSystem st' = Some newGeo /\
    attributes newGeo !! "size" = attributes sampleOldParticles !! "size".
Proof.
  assert (Hrun : exists st',
            @run sampleThree
              [RadiusChanged (Fin 20) (fun _ => (1 / 8)%R); Tick quietProps [];
               DepthChanged 1; RadiusChanged (Fin 5) (fun _ => (1 / 3)%R)]
              sampleLoudScene = Some st') by (eexists; reflexivity).
  destruct Hrun as (st' & Hrun).
  destruct (@particle_attributes_survive_runs sampleThree _ _ st' sampleOldParticles
              Hrun eq_refl) as (newGeo & Hn & _ & Hs & _).
  exists st', newGeo. auto.
Defined.

(** ** The mount *)

Lemma mount_scene `{ThreeLib} (props : NeogenesisProps) (color1 color2 : Color)
    (audio : option AudioProcessor) (random : nat -> R) (st : Scene) :
  mount props color1 color2 audio random = Some st ->
  wellFormed st /\ builtAt (recursionDepth props) st /\
  positionsOf st = originalFractalPositions st.
Proof.
  unfold mount. intros Hm.
  destruct (createNeogenesisFractal _ _) as [geo|] eqn:Hgeo; [|discriminate].
  destruct (attributes geo !! "position") as [posAttr|] eqn:Hpos; [|discriminate].
  injection Hm as <-. split; [|split].
  - eexists _, posAttr, (array posAttr).
    cbn [fractalGroup children geometry originalFractalPositions].
    split; [reflexivity|]. split; [discriminate|]. auto.
  - eexists _, geo. cbn [fractalGroup geometry]. auto.
  - unfold positionsOf. cbn [fractalGroup geometry originalFractalPositions].
    rewrite Hpos. reflexivity.
Qed.

Lemma animate_children (currentProps : NeogenesisProps) (analyser : list Z)
    (st st' : Scene) (group : FractalGroup) :
  animate currentProps analyser st = Some st' ->
  fractalGroup st = Some group ->
  exists group',
    fractalGroup st' = Some group' /\
    children group'
    = imap (updateLayer currentProps (smoothedBassOf currentProps analyser st))
           (children group).
Proof.
  unfold animate, smoothedBassOf. intros Hrun Hgroup.
  destruct (processAudio currentProps analyser (audioProcessor st))
    as [[[audio' freqData] bassAvg] trebleAvg].
  rewrite Hgroup in Hrun. cbn [fst snd].
  destruct (children group) as [|mesh meshes] eqn:Hc; [discriminate|].
  destruct (updateFractalGeometry _ _ _ _ _ _ _); [|discriminate].
  injection Hrun as <-. eexists. split; reflexivity.
Qed.

(** What a tick that returns does not touch beside the geometry: the
    snapshot is kept, the flag becomes the wireframe prop of the tick, and
    the group keeps the number of its layers. *)
Lemma animate_on_group (currentProps : NeogenesisProps) (analyser : list Z)
    (st st' : Scene) (group : FractalGroup) :
  animate currentProps analyser st = Some st' ->
  fractalGroup st = Some group ->
  originalFractalPositions st' = originalFractalPositions st /\
  lastWireframeState st' = fractalWireframe currentProps /\
  exists group',
    fractalGroup st' = Some group' /\
    length (children group') = length (children group).
Proof.
  unfold animate. intros Hrun Hgroup.
  destruct (processAudio currentProps analyser (audioProcessor st))
    as [[[audio' freqData] bassAvg] trebleAvg].
  rewrite Hgroup in Hrun.
  destruct (children group) as [|mesh meshes] eqn:Hc; [discriminate|].
  destruct (updateFractalGeometry _ _ _ _ _ _ _) as [geo'|]; [|discriminate].
  injection Hrun as <-.
  cbn [originalFractalPositions lastWireframeState fractalGroup].
  split; [reflexivity|]. split; [reflexivity|].
  eexists. split; [reflexivity|]. cbn [children length].
  rewrite length_imap. reflexivity.
Qed.

(** X16.  If the generator returns a geometry with a position attribute,
    the mount effect, with the call of [animate()] that ends it, does not
    throw, and the scene that it leaves has three layers, is well-formed,
    holds the snapshot of the positions and the normals of the build, and
    its flag is the wireframe prop; in Static mode its positions are the
    snapshot.  Hence from the mount on, no run of ticks and of changes of
    radius throws or changes the normal attribute, and after any run that
    does not throw the normal attribute is the one that the generator
    computes at the depth of the last build. *)
Theorem mounted_scene_runs `{ThreeLib} (props : NeogenesisProps) (color1 color2 : Color)
    (audio : option AudioProcessor) (random : nat -> R) (analyser : list Z)
    (fractalGeo : BufferGeometry) (posAttr : BufferAttribute)
    (events : list Event) :
  createNeogenesisFractal IcosahedronGeometry_4_1 (recursionDepth props)
  = Some fractalGeo ->
  attributes fractalGeo !! "position" = Some posAttr ->
  exists st group,
    mountEffect props color1 color2 audio random analyser = Some st /\
    fractalGroup st = Some group /\
    length (children group) = 3%nat /\
    wellFormed st /\
    originalFractalPositions st = Some (array posAttr) /\
    lastWireframeState st = fractalWireframe props /\
    normalsOf st = attributes fractalGeo !! "normal" /\
    (fractalWireframe props = false -> positionsOf st = Some (array posAttr)) /\
    (Forall keepsGeometry events ->
       exists st', run events st = Some st' /\ normalsOf st' = normalsOf st) /\
    (forall st', run events st = Some st' ->
       builtAt (currentDepth (recursionDepth props) events) st').
Proof.
  intros Hgeo Hpos.
  destruct (mount props color1 color2 audio random) as [st0|] eqn:Hmount;
    [|unfold mount in Hmount; rewrite Hgeo, Hpos in Hmount; discriminate].
  destruct (mount_scene _ _ _ _ _ _ Hmount) as (Hwf0 & Hbuilt0 & Hpos0).
  assert (Hst0 : exists group0,
            fractalGroup st0 = Some group0 /\
            length (children group0) = 3%nat /\
            geometry group0 = fractalGeo /\
            originalFractalPositions st0 = Some (array posAttr) /\
            lastWireframeState st0 = fractalWireframe props).
  { unfold mount in Hmount. rewrite Hgeo, Hpos in Hmount. injection Hmount as <-.
    eexists. cbn [fractalGroup children geometry originalFractalPositions
                  lastWireframeState].
    split; [reflexivity|]. split; [reflexivity|]. auto. }
  destruct Hst0 as (group0 & Hgroup0 & Hthree & Hgeo0 & Horig0 & Hflag0).
  destruct (animate_wellFormed props analyser st0 Hwf0) as (st & Hrun & Hwf).
  destruct (animate_on_group _ _ _ _ _ Hrun Hgroup0)
    as (Horig & Hflag & group & Hgroup & Hlen).
  destruct (step_builtAt (recursionDepth props) (Tick props analyser) st0 st
              Hbuilt0 Hwf0 Hrun) as (Hbuilt & _).
  exists st, group.
  split; [unfold mountEffect; rewrite Hmount; exact Hrun|].
  split; [exact Hgroup|].
  split; [rewrite Hlen; exact Hthree|].
  split; [exact Hwf|].
  split; [rewrite Horig; exact Horig0|].
  split; [exact Hflag|].
  split.
  { rewrite (animate_preserves_normals _ _ _ _ Hrun).
    unfold normalsOf. rewrite Hgroup0, Hgeo0. reflexivity. }
  split.
  { intros Hstatic.
    destruct (animate_static props analyser st0 (array posAttr) Hstatic Hwf0 Horig0)
      as (st1 & Hrun1 & _ & _ & _ & Hp).
    assert (st1 = st) by congruence. subst st1.
    rewrite Hp, Hflag0, Hstatic, Hpos0. exact Horig0. }
  split.
  - intros Hkeep.
    destruct (run_without_rebuild events st Hkeep Hwf) as (st' & Hrun' & _ & Hn).
    exists st'. auto.
  - intros st' Hrun'. apply (run_builtAt events _ st st' Hbuilt Hwf Hrun').
Qed.

Lemma mounted_scene_runs_witness :
  exists st group st',
    @mountEffect sampleThree (sampleProps true) sampleColor1 sampleColor2
       (Some (newAudioProcessor 512)) (fun _ => (1 / 8)%R) (replicate 256 0%Z)
    = Some st /\
    fractalGroup st = Some group /\
    length (children group) = 3%nat /\
    @run sampleThree [Tick (sampleProps true) (replicate 256 255%Z);
                      RadiusChanged (Fin 20) (fun _ => (1 / 8)%R)] st = Some st' /\
    normalsOf st' = normalsOf st.
Proof.
  assert (Hg : exists fractalGeo posAttr,
            @createNeogenesisFractal sampleThree (@IcosahedronGeometry_4_1 sampleThree)
              (recursionDepth (sampleProps true)) = Some fractalGeo /\
            attributes fractalGeo !! "position" = Some posAttr)
    by (eexists _, _; split; reflexivity).
  destruct Hg as (fractalGeo & posAttr & Hgeo & Hpos).
  destruct (@mounted_scene_runs sampleThree (sampleProps true) sampleColor1 sampleColor2
              (Some (newAudioProcessor 512)) (fun _ => (1 / 8)%R) (replicate 256 0%Z)
              fractalGeo posAttr
              [Tick (sampleProps true) (replicate 256 255%Z);
               RadiusChanged (Fin 20) (fun _ => (1 / 8)%R)] Hgeo Hpos)
    as (st & group & Hrun & Hgroup & Hthree & _ & _ & _ & _ & _ & Hkeep & _).
  destruct Hkeep as (st' & Hrun' & Hn); [repeat constructor|].
  exists st, group, st'. auto.
Defined.

(** X17.  A base solid without triangles is not survived by the hook: at a
    depth other than 0 the generator returns the empty geometry, and both
    the mount and the regeneration effect throw when they take the snapshot
    of its positions. *)
Theorem empty_base_makes_the_hook_throw `{ThreeLib} (props : NeogenesisProps)
    (color1 color2 : Color) (audio : option AudioProcessor) (random : nat -> R)
    (depth : Z) (st : Scene) (group : FractalGroup) :
  initialTriangles IcosahedronGeometry_4_1 = Some [] ->
  recursionDepth props <> 0%Z -> depth <> 0%Z ->
  fractalGroup st = Some group -> children group <> [] ->
  mount props color1 color2 audio random = None /\
  regenerateFractal depth st = None.
Proof.
  intros Hbase Hp Hd Hgroup Hchildren.
  assert (Hgen : forall d, d <> 0%Z ->
            createNeogenesisFractal IcosahedronGeometry_4_1 d = Some emptyGeometry).
  { intros d Hne. unfold createNeogenesisFractal. rewrite Hbase.
    destruct (Z.eqb_spec d 0) as [|_]; [contradiction|].
    unfold subdivide. rewrite subdivideRounds_nil. reflexivity. }
  split.
  - unfold mount. rewrite (Hgen _ Hp). reflexivity.
  - unfold regenerateFractal. rewrite Hgroup.
    destruct (children group); [contradiction|]. rewrite (Hgen _ Hd). reflexivity.
Qed.

Lemma empty_base_makes_the_hook_throw_witness :
  @initialTriangles (@IcosahedronGeometry_4_1 emptyThree) = Some [] /\
  @mount emptyThree (sampleProps true) sampleColor1 sampleColor2 None (fun _ => 0%R) = None /\
  @regenerateFractal emptyThree 3 sampleLoudScene = None.
Proof.
  assert (Hbase : @initialTriangles (@IcosahedronGeometry_4_1 emptyThree) = Some [])
    by reflexivity.
  split; [exact Hbase|].
  apply (@empty_base_makes_the_hook_throw emptyThree (sampleProps true) sampleColor1
           sampleColor2 None (fun _ => 0%R) 3 sampleLoudScene sampleGroup Hbase);
    try discriminate; reflexivity.
Defined.



(** ** The camera *)

Section Camera.
#[local] Open Scope R_scope.


(** X20.  The field of view approaches the prop geometrically and never
    passes it: after [n] ticks with the same [fieldOfView], the distance of
    the camera's field of view from it is nine tenths to the power [n] of
    what it was. *)
Theorem fov_converges (n : nat) (fieldOfView fov : R) :
  Nat.iter n (updateFov (Fin fieldOfView)) (Fin fov)
  = Fin (fieldOfView + (9 / 10) ^ n * (fov - fieldOfView)).
Proof.
  induction n as [|n IH].
  - change (Nat.iter 0 (updateFov (Fin fieldOfView)) (Fin fov)) with (Fin fov).
    f_equal. cbn [pow]. ring.
  - rewrite Nat.iter_succ, IH. unfold updateFov.
    rewrite lerp_tenth. f_equal. cbn [pow]. ring.
Qed.

End Camera.

(** ** The layers over a run of ticks *)

Section Rotation.
#[local] Open Scope R_scope.

Context `{ThreeLib}.

(** X21.  The layers turn at constant rates, whatever the audio and the
    mode are: over [n] ticks with the rotation speed [w], the layer [i]
    turns by [n * 0.0005 * w * (i + 1) * 0.6] about the y axis and by
    [- n * 0.0003 * w * (i + 1) * 0.6] about the x axis, so that the three
    layers turn at rates in the ratio 1 : 2 : 3. *)
Theorem layers_turn_at_constant_rates (frames : list (NeogenesisProps * list Z))
    (st : Scene) (group : FractalGroup) (i : nat) (mesh : Mesh) (w rx ry : R) :
  Forall (fun frame => rotationSpeed frame.1 = Fin w) frames ->
  wellFormed st ->
  fractalGroup st = Some group ->
  children group !! i = Some mesh ->
  rotationX mesh = Fin rx -> rotationY mesh = Fin ry ->
  exists st' group' mesh',
    run (ticks frames) st = Some st' /\
    fractalGroup st' = Some group' /\
    children group' !! i = Some mesh' /\
    rotationY mesh'
    = Fin (ry + INR (length frames) * (5 / 10000 * w * (INR (i + 1) * (6 / 10)))) /\
    rotationX mesh'
    = Fin (rx - INR (length frames) * (3 / 10000 * w * (INR (i + 1) * (6 / 10)))).
Proof.
  intros Hframes. revert st group mesh rx ry.
  induction Hframes as [|frame frames Hw _ IH]; intros st group mesh rx ry Hwf Hg Hi Hrx Hry.
  - exists st, group, mesh. cbn [ticks map run length INR].
    rewrite Hrx, Hry. repeat split; auto; f_equal; ring.
  - destruct (animate_wellFormed frame.1 frame.2 st Hwf) as (st1 & Hrun & Hwf1).
    destruct (animate_children _ _ _ _ _ Hrun Hg) as (group1 & Hg1 & Hc1).
    set (mesh1 := updateLayer frame.1 (smoothedBassOf frame.1 frame.2 st) i mesh).
    assert (Hi1 : children group1 !! i = Some mesh1).
    { rewrite Hc1, list_lookup_imap, Hi. reflexivity. }
    assert (Hrx1 : rotationX mesh1 = Fin (rx - 3 / 10000 * w * (INR (i + 1) * (6 / 10)))).
    { unfold mesh1, updateLayer, Num.of_nat. cbn [rotationX]. rewrite Hw, Hrx. reflexivity. }
    assert (Hry1 : rotationY mesh1 = Fin (ry + 5 / 10000 * w * (INR (i + 1) * (6 / 10)))).
    { unfold mesh1, updateLayer, Num.of_nat. cbn [rotationY]. rewrite Hw, Hry. reflexivity. }
    destruct (IH st1 group1 mesh1 _ _ Hwf1 Hg1 Hi1 Hrx1 Hry1)
      as (st' & group' & mesh' & Hrest & Hg' & Hi' & Hy' & Hx').
    exists st', group', mesh'. cbn [ticks map run step]. rewrite Hrun.
    split; [exact Hrest|]. split; [exact Hg'|]. split; [exact Hi'|].
    rewrite Hy', Hx'. cbn [length]. rewrite S_INR. split; f_equal; ring.
Qed.

End Rotation.

Lemma layers_turn_at_constant_rates_witness :
  exists st' group' mesh',
    @run sampleThree (ticks [(quietProps, []); (sampleProps true, replicate 16 255%Z)])
         sampleLoudScene = Some st' /\
    fractalGroup st' = Some group' /\
    children group' !! 2%nat = Some mesh' /\
    rotationY mesh' = Fin (0 + INR 2 * (5 / 10000 * (2 / 10) * (INR (2 + 1) * (6 / 10))))%R.
Proof.
  destruct (@layers_turn_at_constant_rates sampleThree
              [(quietProps, []); (sampleProps true, replicate 16 255%Z)]
              sampleLoudScene sampleGroup 2 sampleMesh (2 / 10) 0 0)
    as (st' & group' & mesh' & Hrun & Hg & Hi & Hy & _).
  - repeat first [apply Forall_cons_2 | apply Forall_nil_2]; reflexivity.
  - eexists _, _, _. split; [reflexivity|]. split; [discriminate|].
    split; [reflexivity|]. split; reflexivity.
  - reflexivity.
  - reflexivity.
  - reflexivity.
  - reflexivity.
  - exists st', group', mesh'. auto.
Defined.

(** ** Regeneration and restoration at the edges *)

(** X22.  A change of depth that does not throw puts the geometry that the
    generator builds at the new depth into the layers and takes the
    snapshot from it, so that the position buffer and the snapshot agree
    (a deformation in progress is dropped); the layers with their rotations
    and scales, the material, the wireframe flag of the last tick, the
    smoothed uniforms, the audio processor and the particles stay. *)
Theorem depth_change_recaptures_rest `{ThreeLib} (depth : Z) (st st' : Scene)
    (group : FractalGroup) :
  regenerateFractal depth st = Some st' ->
  fractalGroup st = Some group -> children group <> [] ->
  exists fresh positions,
    createNeogenesisFractal IcosahedronGeometry_4_1 depth = Some fresh /\
    fractalGroup st'
    = Some (mkGroup (visible group) (children group) fresh (material group)) /\
    positionsOf st' = Some positions /\
    originalFractalPositions st' = Some positions /\
    wellFormed st' /\
    lastWireframeState st' = lastWireframeState st /\
    uBass st' = uBass st /\ uTreble st' = uTreble st /\
    audioProcessor st' = audioProcessor st /\
    particleSystem st' = particleSystem st.
Proof.
  unfold regenerateFractal. intros Hrun Hgroup Hchildren. rewrite Hgroup in Hrun.
  destruct (children group) as [|mesh meshes] eqn:Hc; [contradiction|].
  destruct (createNeogenesisFractal _ _) as [fresh|]; [|discriminate].
  destruct (attributes fresh !! "position") as [posAttr|] eqn:Hpos; [|discriminate].
  injection Hrun as <-. exists fresh, (array posAttr).
  split; [reflexivity|]. rewrite <- Hc. split; [reflexivity|].
  unfold positionsOf. cbn [fractalGroup geometry originalFractalPositions
                           lastWireframeState uBass uTreble audioProcessor particleSystem].
  rewrite Hpos. split; [reflexivity|]. split; [reflexivity|].
  split; [|auto 10].
  eexists _, posAttr, (array posAttr).
  cbn [fractalGroup children geometry originalFractalPositions].
  split; [reflexivity|]. split; [rewrite Hc; discriminate|]. auto.
Qed.

Lemma depth_change_recaptures_rest_witness :
  exists st' positions,
    @regenerateFractal sampleThree 1 sampleLoudScene = Some st' /\
    positionsOf st' = Some positions /\
    originalFractalPositions st' = Some positions.
Proof.
  assert (Hrun : exists st', @regenerateFractal sampleThree 1 sampleLoudScene = Some st')
    by (eexists; reflexivity).
  destruct Hrun as (st' & Hrun).
  destruct (@depth_change_recaptures_rest sampleThree 1 sampleLoudScene st' sampleGroup Hrun)
    as (fresh & positions & _ & _ & Hp & Ho & _); [reflexivity | discriminate |].
  exists st', positions. auto.
Defined.

(** X23.  Restoration at the edges: on the tick that leaves the Deforming
    mode, a snapshot shorter than the position buffer overwrites the front
    of the buffer and leaves the rest of it, and a snapshot longer than the
    position buffer makes the tick throw. *)
Theorem restoration_of_a_mismatched_snapshot (currentProps : NeogenesisProps)
    (analyser : list Z) (st : Scene) (group : FractalGroup) (orig : list num)
    (posAttr : BufferAttribute) :
  fractalWireframe currentProps = false ->
  lastWireframeState st = true ->
  fractalGroup st = Some group ->
  children group <> [] ->
  originalFractalPositions st = Some orig ->
  attributes (geometry group) !! "position" = Some posAttr ->
  ((length orig <= length (array posAttr))%nat ->
     exists st', animate currentProps analyser st = Some st' /\
                 positionsOf st' = Some (orig ++ drop (length orig) (array posAttr))) /\
  ((length (array posAttr) < length orig)%nat ->
     animate currentProps analyser st = None).
Proof.
  intros Hwire Hlast Hgroup Hchildren Horig Hpos.
  unfold animate, positionsOf.
  destruct (processAudio currentProps analyser (audioProcessor st))
    as [[[audio' freqData] bassAvg] trebleAvg].
  rewrite Hgroup. destruct (children group) as [|mesh meshes]; [contradiction|].
  unfold updateFractalGeometry, typedArraySet. rewrite Hwire, Hlast, Horig, Hpos.
  split; intros Hlen.
  - destruct (Nat.leb_spec (length orig) (length (array posAttr))) as [_|]; [|lia].
    eexists. split; [reflexivity|]. cbn [fractalGroup geometry].
    unfold setAttribute; cbn [attributes]. rewrite lookup_insert_eq. reflexivity.
  - destruct (Nat.leb_spec (length orig) (length (array posAttr))) as [|_]; [lia|].
    reflexivity.
Qed.

Lemma restoration_of_a_mismatched_snapshot_witness :
  animate (sampleProps false) []
          (sampleScene None (Some (replicate 10 (Fin 1))) true) = None /\
  exists st',
    animate (sampleProps false) []
            (sampleScene None (Some [Fin 5; Fin 6]) true) = Some st' /\
    positionsOf st'
    = Some ([Fin 5; Fin 6] ++ drop 2 (triangleCoordinates octantTriangle)).
Proof.
  split.
  - apply (restoration_of_a_mismatched_snapshot (sampleProps false) []
             (sampleScene None (Some (replicate 10 (Fin 1))) true) sampleGroup
             (replicate 10 (Fin 1)) (mkAttr (triangleCoordinates octantTriangle) 3));
      try reflexivity; try discriminate. cbn [length replicate array triangleCoordinates]. lia.
  - apply (restoration_of_a_mismatched_snapshot (sampleProps false) []
             (sampleScene None (Some [Fin 5; Fin 6]) true) sampleGroup
             [Fin 5; Fin 6] (mkAttr (triangleCoordinates octantTriangle) 3));
      try reflexivity; try discriminate. cbn [length array triangleCoordinates]. lia.
Defined.

(** ** The particle field and the radius *)

Lemma lookup_particlePositions (n i k : nat) (radius : num) (random : nat -> R) :
  (i < n)%nat -> (k < 3)%nat ->
  particlePositions n radius random !! (3 * i + k)%nat
  = vectorCoordinates
      (particlePosition radius (random (3 * i)%nat) (random (3 * i + 1)%nat)
         (random (3 * i + 2)%nat)) !! k.
Proof.
  intros Hi Hk. unfold particlePositions.
  rewrite (lookup_flat_map_fixed _ 3) with (a := i); auto.
  rewrite lookup_seq_lt by exact Hi. reflexivity.
Qed.

Section Radius.
#[local] Open Scope R_scope.

Lemma particlePosition_scale (r c u v w x : R) (k : nat) :
  vectorCoordinates (particlePosition (Fin r) u v w) !! k = Some (Fin x) ->
  vectorCoordinates (particlePosition (Fin (c * r)) u v w) !! k = Some (Fin (c * x)).
Proof.
  unfold particlePosition, acosNum. cbn [Num.mul Num.sub Num.lift2].
  destruct (Rle_dec (-1) (2 * v - 1)); [destruct (Rle_dec (2 * v - 1) 1)|];
    cbn [lift1 Num.mul Num.lift2]; unfold vectorCoordinates; cbn [vx vy vz];
    destruct k as [|[|[|k]]]; cbn [lookup list_lookup]; intros Hx;
    try discriminate; injection Hx as <-; f_equal; f_equal; ring.
Qed.

(** X24.  For the same numbers from [Math.random()], the particle field is
    linear in the radius: every coordinate that is a number at the radius
    [r] is [c] times as large at the radius [c * r]. *)
Theorem particle_positions_scale_with_radius (n j : nat) (r c x : R) (random : nat -> R) :
  particlePositions n (Fin r) random !! j = Some (Fin x) ->
  particlePositions n (Fin (c * r)) random !! j = Some (Fin (c * x)).
Proof.
  intros Hx.
  assert (Hj : (j < 3 * n)%nat).
  { apply lookup_lt_Some in Hx. rewrite length_particlePositions in Hx. exact Hx. }
  pose proof (Nat.div_mod_eq j 3) as Hdm. pose proof (Nat.mod_upper_bound j 3) as Hk.
  assert (Hi : (j / 3 < n)%nat) by (apply Nat.Div0.div_lt_upper_bound; lia).
  set (i := (j / 3)%nat) in *. set (k := (j mod 3)%nat) in *.
  rewrite Hdm in Hx |- *.
  rewrite lookup_particlePositions in Hx |- * by (auto; lia).
  apply particlePosition_scale. exact Hx.
Qed.

End Radius.

Lemma particle_positions_scale_with_radius_witness :
  particlePositions 1 (Fin (2 * 10)) (fun _ => (1 / 2)%R) !! 2%nat
  = Some (Fin (2 * (10 * cbrt (1 / 2) * cos (acos (2 * (1 / 2) - 1))))%R).
Proof.
  apply (particle_positions_scale_with_radius 1 2 10 2
           (10 * cbrt (1 / 2) * cos (acos (2 * (1 / 2) - 1)))%R (fun _ => (1 / 2)%R)).
  change 2%nat with (3 * 0 + 2)%nat.
  rewrite lookup_particlePositions by lia.
  unfold particlePosition, acosNum. cbn [Num.mul Num.sub Num.lift2].
  destruct (Rle_dec (-1) (2 * (1 / 2) - 1)); [|lra].
  destruct (Rle_dec (2 * (1 / 2) - 1) 1); [|lra].
  reflexivity.
Defined.
